(** * Mercury 236 power meter utility: protocol engine

    A shallow embedding of [mercury236.c]: the MODBUS-RTU style checksum,
    the packed request and response frames, the response validators, the
    3-byte and 4-byte value decoders, the ten command functions and the
    command sequence of [main].

    Conventions of the embedding.
    - A C [byte] is a [Z] in [0, 256); a buffer is a [list Z].
    - A [UInt16] is a [Z] reduced by [uint16]; an [int] is a [Z] reduced by
      [int32] (two's complement wrap-around, as gcc defines it).
    - Structures are declared under [#pragma pack(1)]; their memory image
      is the list of their bytes, a [UInt16] field stored low byte first
      (the little-endian hosts the utility is run on).
    - A C [float] is an IEEE-754 binary32 number: [spec_float] with
      precision 24 and [emax] 128, rounding to nearest even.
    - System calls are events of a trace; what the serial line delivers is
      a script of responses consumed by [select]/[read].  There is one
      serial port, so the descriptor argument [ttyd] is left out.
    - A function that does not return ([exit]) ends the computation with
      its exit code; an output pointer becomes a value passed in and
      returned. *)

From Stdlib Require Import ZArith List Bool Lia Ascii String.
From Stdlib Require Import Floats.SpecFloat.
Import ListNotations.
Local Open Scope Z_scope.

(** ** Machine integers *)

Definition uint8 (x : Z) : Z := x mod 2 ^ 8.
Definition uint16 (x : Z) : Z := x mod 2 ^ 16.
Definition int32 (x : Z) : Z := (x + 2 ^ 31) mod 2 ^ 32 - 2 ^ 31.

Definition is_byte (b : Z) : Prop := 0 <= b < 256.
Definition is_uint16 (x : Z) : Prop := 0 <= x < 65536.

(** [buf[i]] for a buffer held as a list. *)
Definition at_ (buf : list Z) (i : nat) : Z := nth i buf 0.

(** ** Constants of the source *)

Definition TIME_OUT : Z := 50.
Definition CH_TIME_OUT : Z := 2.
Definition BSZ : Z := 255.
Definition PM_ADDRESS : Z := 0.
Definition sizeof_UInt16 : Z := 2.

(** [ResultCode] *)
Definition OK : Z := 0.
Definition ILLEGAL_CMD : Z := 1.
Definition INTERNAL_COUNTER_ERR : Z := 2.
Definition PERMISSION_DENIED : Z := 3.
Definition CLOCK_ALREADY_CORRECTED : Z := 4.
Definition CHANNEL_ISNT_OPEN : Z := 5.
Definition WRONG_RESULT_SIZE : Z := 256.
Definition WRONG_CRC : Z := 257.
Definition CHECK_CHANNEL_TIME_OUT : Z := 258.

(** [ExitCode] *)
Inductive ExitCode := EXIT_OK | EXIT_FAIL.

(** [Direction] *)
Inductive Direction := OUT | IN.

(** [PowerPeriod] *)
Definition PP_RESET : Z := 0.
Definition PP_YTD : Z := 1.
Definition PP_LAST_YEAR : Z := 2.
Definition PP_MONTH : Z := 3.
Definition PP_TODAY : Z := 4.
Definition PP_YESTERDAY : Z := 5.

(** ** [ModRTU_CRC] *)

(** The inner loop [for (int i = 8; i != 0; i--)]: one shift per turn. *)
Fixpoint crc_bits (i : nat) (crc : Z) : Z :=
  match i with
  | O => crc
  | S i' =>
      if negb (Z.land crc 0x0001 =? 0)
      then crc_bits i' (uint16 (Z.lxor (uint16 (Z.shiftr crc 1)) 0xA001))
      else crc_bits i' (uint16 (Z.shiftr crc 1))
  end.

(** The outer loop [for (int pos = 0; pos < len; pos++)] over the bytes
    still to be read. *)
Fixpoint crc_bytes (buf : list Z) (crc : Z) : Z :=
  match buf with
  | [] => crc
  | b :: rest => crc_bytes rest (crc_bits 8 (uint16 (Z.lxor crc (uint16 b))))
  end.

Definition ModRTU_CRC (buf : list Z) (len : Z) : Z :=
  crc_bytes (firstn (Z.to_nat len) buf) 0xFFFF.

(** The checksum as section 4.1 of the specification words it, for
    comparison with [ModRTU_CRC]. *)
Module ChecksumSpec.

Definition xor_into_low_byte (acc b : Z) : Z :=
  Z.lor (Z.land acc 0xFF00) (Z.lxor (Z.land acc 0xFF) b).

Definition shift_step (acc : Z) : Z :=
  if Z.testbit acc 0
  then Z.lxor (Z.shiftr acc 1) 0xA001
  else Z.shiftr acc 1.

Definition absorb (acc b : Z) : Z :=
  Nat.iter 8 shift_step (xor_into_low_byte acc b).

Definition checksum (bytes : list Z) : Z := fold_left absorb bytes 0xFFFF.

End ChecksumSpec.

(** ** Packed structures and their memory images *)

(** A [UInt16] field as it lies in memory, low byte first, and back. *)
Definition store_UInt16 (x : Z) : list Z := [uint8 x; uint8 (Z.shiftr x 8)].
Definition load_UInt16 (buf : list Z) (off : nat) : Z :=
  Z.lor (at_ buf off) (Z.shiftl (at_ buf (S off)) 8).

(** [n] bytes of [buf] from offset [off]: an array member of an overlaid
    structure. *)
Definition member (buf : list Z) (off n : nat) : list Z :=
  firstn n (skipn off buf).

Module TestCmd.
Record t := { address : Z; command : Z; CRC : Z }.
Definition sizeof : Z := 4.
Definition bytes (c : t) : list Z :=
  [address c; command c] ++ store_UInt16 (CRC c).
Definition set_CRC (x : Z) (c : t) : t :=
  {| address := address c; command := command c; CRC := x |}.
End TestCmd.

Module InitCmd.
Record t := { address : Z; command : Z; accessLevel : Z;
              password : list Z; CRC : Z }.
Definition sizeof : Z := 11.
Definition bytes (c : t) : list Z :=
  [address c; command c; accessLevel c] ++ firstn 6 (password c)
    ++ store_UInt16 (CRC c).
Definition set_CRC (x : Z) (c : t) : t :=
  {| address := address c; command := command c;
     accessLevel := accessLevel c; password := password c; CRC := x |}.
End InitCmd.

Module ByeCmd.
Record t := { address : Z; command : Z; CRC : Z }.
Definition sizeof : Z := 4.
Definition bytes (c : t) : list Z :=
  [address c; command c] ++ store_UInt16 (CRC c).
Definition set_CRC (x : Z) (c : t) : t :=
  {| address := address c; command := command c; CRC := x |}.
End ByeCmd.

Module ReadParamCmd.
Record t := { address : Z; command : Z; paramId : Z; BWRI : Z; CRC : Z }.
Definition sizeof : Z := 6.
Definition bytes (c : t) : list Z :=
  [address c; command c; paramId c; BWRI c] ++ store_UInt16 (CRC c).
Definition set_CRC (x : Z) (c : t) : t :=
  {| address := address c; command := command c; paramId := paramId c;
     BWRI := BWRI c; CRC := x |}.
End ReadParamCmd.

Module Result_1b.
Record t := { address : Z; result : Z; CRC : Z }.
Definition sizeof : Z := 4.
Definition overlay (buf : list Z) : t :=
  {| address := at_ buf 0; result := at_ buf 1; CRC := load_UInt16 buf 2 |}.
End Result_1b.

Module Result_3b.
Record t := { address : Z; res : list Z; CRC : Z }.
Definition sizeof : Z := 6.
Definition overlay (buf : list Z) : t :=
  {| address := at_ buf 0; res := member buf 1 3; CRC := load_UInt16 buf 4 |}.
End Result_3b.

Module Result_3x3b.
Record t := { address : Z; p1 : list Z; p2 : list Z; p3 : list Z; CRC : Z }.
Definition sizeof : Z := 12.
Definition overlay (buf : list Z) : t :=
  {| address := at_ buf 0; p1 := member buf 1 3; p2 := member buf 4 3;
     p3 := member buf 7 3; CRC := load_UInt16 buf 10 |}.
End Result_3x3b.

Module Result_4x3b.
Record t := { address : Z; sum : list Z; p1 : list Z; p2 : list Z;
              p3 : list Z; CRC : Z }.
Definition sizeof : Z := 15.
Definition overlay (buf : list Z) : t :=
  {| address := at_ buf 0; sum := member buf 1 3; p1 := member buf 4 3;
     p2 := member buf 7 3; p3 := member buf 10 3; CRC := load_UInt16 buf 13 |}.
End Result_4x3b.

Module Result_4x4b.
Record t := { address : Z; sum : list Z; p1 : list Z; p2 : list Z;
              p3 : list Z; CRC : Z }.
Definition sizeof : Z := 19.
Definition overlay (buf : list Z) : t :=
  {| address := at_ buf 0; sum := member buf 1 4; p1 := member buf 5 4;
     p2 := member buf 9 4; p3 := member buf 13 4; CRC := load_UInt16 buf 17 |}.
End Result_4x4b.

(** ** Response validators *)

Definition checkResult_1b (buf : list Z) (len : Z) : Z :=
  if negb (len =? Result_1b.sizeof) then WRONG_RESULT_SIZE
  else
    let res := Result_1b.overlay buf in
    let crc := ModRTU_CRC buf (len - sizeof_UInt16) in
    if negb (crc =? Result_1b.CRC res) then WRONG_CRC
    else Z.land (Result_1b.result res) 0x0F.

Definition checkResult_3b (buf : list Z) (len : Z) : Z :=
  if negb (len =? Result_3b.sizeof) then WRONG_RESULT_SIZE
  else
    let res := Result_3b.overlay buf in
    let crc := ModRTU_CRC buf (len - sizeof_UInt16) in
    if negb (crc =? Result_3b.CRC res) then WRONG_CRC
    else OK.

Definition checkResult_3x3b (buf : list Z) (len : Z) : Z :=
  if negb (len =? Result_3x3b.sizeof) then WRONG_RESULT_SIZE
  else
    let res := Result_3x3b.overlay buf in
    let crc := ModRTU_CRC buf (len - sizeof_UInt16) in
    if negb (crc =? Result_3x3b.CRC res) then WRONG_CRC
    else OK.

Definition checkResult_4x3b (buf : list Z) (len : Z) : Z :=
  if negb (len =? Result_4x3b.sizeof) then WRONG_RESULT_SIZE
  else
    let res := Result_4x3b.overlay buf in
    let crc := ModRTU_CRC buf (len - sizeof_UInt16) in
    if negb (crc =? Result_4x3b.CRC res) then WRONG_CRC
    else OK.

Definition checkResult_4x4b (buf : list Z) (len : Z) : Z :=
  if negb (len =? Result_4x4b.sizeof) then WRONG_RESULT_SIZE
  else
    let res := Result_4x4b.overlay buf in
    let crc := ModRTU_CRC buf (len - sizeof_UInt16) in
    if negb (crc =? Result_4x4b.CRC res) then WRONG_CRC
    else OK.

(** The five response shapes and the validator of each. *)
Inductive Shape := Shape_1b | Shape_3b | Shape_3x3b | Shape_4x3b | Shape_4x4b.

Definition shape_size (s : Shape) : Z :=
  match s with
  | Shape_1b => Result_1b.sizeof
  | Shape_3b => Result_3b.sizeof
  | Shape_3x3b => Result_3x3b.sizeof
  | Shape_4x3b => Result_4x3b.sizeof
  | Shape_4x4b => Result_4x4b.sizeof
  end.

Definition checkResult_of (s : Shape) : list Z -> Z -> Z :=
  match s with
  | Shape_1b => checkResult_1b
  | Shape_3b => checkResult_3b
  | Shape_3x3b => checkResult_3x3b
  | Shape_4x3b => checkResult_4x3b
  | Shape_4x4b => checkResult_4x4b
  end.

(** The checksum a received buffer carries in its trailing two bytes. *)
Definition embedded_crc (buf : list Z) : Z :=
  load_UInt16 buf (List.length buf - 2)%nat.

(** ** Floats and the value decoders *)

Definition float : Type := spec_float.

(** Conversion of an [int] to [float] and the division of two floats,
    both rounding to nearest even in binary32. *)
Definition float_of_int (v : Z) : float := binary_normalize 24 128 v 0 false.
Definition float_div (x y : float) : float := SFdiv 24 128 x y.

(** The constants [0.0], [100.0] and [1000.0] converted to [float]. *)
Definition F0 : float := S754_zero false.
Definition F100 : float := float_of_int 100.
Definition F1000 : float := float_of_int 1000.

Definition B3F (b : list Z) (factor : float) : float :=
  let val :=
    int32 (Z.lor (Z.lor (Z.shiftl (at_ b 0) 16) (Z.shiftl (at_ b 2) 8))
                 (at_ b 1)) in
  float_div (float_of_int val) factor.

Definition B4F (b : list Z) (factor : float) : float :=
  let val :=
    int32 (Z.lor (Z.lor (Z.lor (Z.shiftl (at_ b 1) 24) (Z.shiftl (at_ b 0) 16))
                        (Z.shiftl (at_ b 3) 8))
                 (at_ b 2)) in
  float_div (float_of_int val) factor.

(** ** Measurement vectors *)

Module P3V.
Record t := { p1 : float; p2 : float; p3 : float }.
Definition set_p1 (x : float) (v : t) : t := {| p1 := x; p2 := p2 v; p3 := p3 v |}.
Definition set_p2 (x : float) (v : t) : t := {| p1 := p1 v; p2 := x; p3 := p3 v |}.
Definition set_p3 (x : float) (v : t) : t := {| p1 := p1 v; p2 := p2 v; p3 := x |}.
End P3V.

Module P3VS.
Record t := { sum : float; p1 : float; p2 : float; p3 : float }.
Definition set_sum (x : float) (v : t) : t :=
  {| sum := x; p1 := p1 v; p2 := p2 v; p3 := p3 v |}.
Definition set_p1 (x : float) (v : t) : t :=
  {| sum := sum v; p1 := x; p2 := p2 v; p3 := p3 v |}.
Definition set_p2 (x : float) (v : t) : t :=
  {| sum := sum v; p1 := p1 v; p2 := x; p3 := p3 v |}.
Definition set_p3 (x : float) (v : t) : t :=
  {| sum := sum v; p1 := p1 v; p2 := p2 v; p3 := x |}.
End P3VS.

(** The result variables of [main]: [P3V U, I, A; P3VS C, P, S, PR, PY, PT;
    float f].  They are declared without initialiser, so [main] starts
    from whatever they hold. *)
Module Vars.
Record t := { U : P3V.t; I : P3V.t; A : P3V.t;
              C : P3VS.t; P : P3VS.t; S : P3VS.t;
              PR : P3VS.t; PY : P3VS.t; PT : P3VS.t;
              f : float }.
Definition set_U x v := {| U := x; I := I v; A := A v; C := C v; P := P v;
  S := S v; PR := PR v; PY := PY v; PT := PT v; f := f v |}.
Definition set_I x v := {| U := U v; I := x; A := A v; C := C v; P := P v;
  S := S v; PR := PR v; PY := PY v; PT := PT v; f := f v |}.
Definition set_A x v := {| U := U v; I := I v; A := x; C := C v; P := P v;
  S := S v; PR := PR v; PY := PY v; PT := PT v; f := f v |}.
Definition set_C x v := {| U := U v; I := I v; A := A v; C := x; P := P v;
  S := S v; PR := PR v; PY := PY v; PT := PT v; f := f v |}.
Definition set_P x v := {| U := U v; I := I v; A := A v; C := C v; P := x;
  S := S v; PR := PR v; PY := PY v; PT := PT v; f := f v |}.
Definition set_S x v := {| U := U v; I := I v; A := A v; C := C v; P := P v;
  S := x; PR := PR v; PY := PY v; PT := PT v; f := f v |}.
Definition set_PR x v := {| U := U v; I := I v; A := A v; C := C v; P := P v;
  S := S v; PR := x; PY := PY v; PT := PT v; f := f v |}.
Definition set_PY x v := {| U := U v; I := I v; A := A v; C := C v; P := P v;
  S := S v; PR := PR v; PY := x; PT := PT v; f := f v |}.
Definition set_PT x v := {| U := U v; I := I v; A := A v; C := C v; P := P v;
  S := S v; PR := PR v; PY := PY v; PT := x; f := f v |}.
Definition set_f x v := {| U := U v; I := I v; A := A v; C := C v; P := P v;
  S := S v; PR := PR v; PY := PY v; PT := PT v; f := x |}.
End Vars.

(** ** The process and the serial line *)

(** What one wait on the line yields: [select] fails, [select] times out,
    or the descriptor is readable and [read] stores [data] (at most [BSZ]
    bytes, the size it is asked for) or fails with [-1]. *)
Inductive Response :=
| SelectError
| SelectTimeout
| ReadData (data : list Z)
| ReadError.

(** The calls [main] and its callees make, in program order:
    the hex dump of [printPackage]; [write] of a frame; [usleep], whose
    argument counts microseconds; [select] with its timeout in seconds;
    [read] with the count it returns; the message of [exitFailure]; the
    ten [printf] of the results at the end of [main]; [close]; the
    [tcsetattr] that restores the port settings. *)
Inductive Event :=
| EvPrintPackage (isin : Direction) (data : list Z)
| EvWrite (data : list Z)
| EvUsleep (usec : Z)
| EvSelect (sec : Z)
| EvRead (n : Z)
| EvPrintf (msg : string)
| EvPrintResults (v : Vars.t)
| EvClose
| EvTcsetattr.

(** The global [debugPrint], what the line still has to deliver, and the
    calls made so far. *)
Record World := { debugPrint : bool; line : list Response; trace : list Event }.

Definition log (e : Event) (w : World) : World :=
  {| debugPrint := debugPrint w; line := line w; trace := trace w ++ [e] |}.

Definition advance (w : World) : World :=
  {| debugPrint := debugPrint w; line := tl (line w); trace := trace w |}.

(** A computation returns a value or ends the process with an exit code. *)
Inductive outcome (A : Type) :=
| Ret (a : A)
| Exit (code : ExitCode).
Arguments Ret {A} a.
Arguments Exit {A} code.

Definition M (A : Type) : Type := World -> outcome A * World.

Definition ret {A} (a : A) : M A := fun w => (Ret a, w).

Definition bind {A B} (c : M A) (k : A -> M B) : M B :=
  fun w =>
    match c w with
    | (Ret a, w') => k a w'
    | (Exit code, w') => (Exit code, w')
    end.

Declare Scope io_scope.
Delimit Scope io_scope with io.
Notation "x <- c ;; k" := (bind c (fun x => k))
  (at level 61, c at next level, right associativity) : io_scope.
Notation "' pat <- c ;; k" :=
  (bind c (fun x => match x with pat => k end))
  (at level 61, pat pattern, c at next level, right associativity) : io_scope.
Notation "c ;; k" := (bind c (fun _ => k))
  (at level 61, right associativity) : io_scope.
Local Open Scope io_scope.

Definition emit (e : Event) : M unit := fun w => (Ret tt, log e w).

Definition exit {A} (code : ExitCode) : M A := fun w => (Exit code, w).

(** The characters the format strings of the source write as
    backslash-t, backslash-n and backslash-r. *)
Definition TAB : string := String "009"%char EmptyString.
Definition LF : string := String "010"%char EmptyString.
Definition CR : string := String "013"%char EmptyString.

(** [printf] with the text it writes. *)
Definition printf (msg : string) : M unit := emit (EvPrintf msg).

Definition write (data : list Z) (size : Z) : M unit :=
  emit (EvWrite (firstn (Z.to_nat size) data)).

Definition usleep (usec : Z) : M unit := emit (EvUsleep usec).

Definition close : M unit := emit EvClose.

Definition tcsetattr : M unit := emit EvTcsetattr.

(** [select] on the descriptor with the timeout [sec]: [-1] on failure,
    [0] when nothing arrives in time (also when the line has nothing more
    to deliver), [1] when the descriptor is readable. *)
Definition select (sec : Z) : M Z :=
  fun w =>
    let w1 := log (EvSelect sec) w in
    match line w with
    | [] => (Ret 0, w1)
    | SelectError :: _ => (Ret (-1), advance w1)
    | SelectTimeout :: _ => (Ret 0, advance w1)
    | ReadData _ :: _ => (Ret 1, w1)
    | ReadError :: _ => (Ret 1, w1)
    end.

(** [read(fd, buf, BSZ)]: the count returned and the bytes stored. *)
Definition read : M (Z * list Z) :=
  fun w =>
    match line w with
    | ReadData data :: _ =>
        let n := Z.of_nat (List.length data) in
        (Ret (n, data), advance (log (EvRead n) w))
    | ReadError :: _ => (Ret (-1, []), advance (log (EvRead (-1)) w))
    | _ => (Ret (-1, []), log (EvRead (-1)) w)
    end.

(** ** Functions of the source *)

Definition exitFailure {A} (msg : string) : M A :=
  printf (msg ++ LF ++ CR)%string ;; exit EXIT_FAIL.

Definition printPackage (data : list Z) (size : Z) (isin : Direction) : M unit :=
  fun w =>
    if debugPrint w
    then emit (EvPrintPackage isin (firstn (Z.to_nat size) data)) w
    else ret tt w.

Definition nb_read_impl : M (Z * list Z) :=
  r <- select CH_TIME_OUT ;;
  if r <? 0 then exitFailure "Select failed."
  else if r =? 0 then ret (0, [])
  else read.

Definition nb_read : M (Z * list Z) :=
  ' (r, buf) <- nb_read_impl ;;
  (if r =? 0 then exitFailure "Communication channel timeout." else ret tt) ;;
  ret (r, buf).

Definition testCmd : TestCmd.t :=
  let testCmd :=
    {| TestCmd.address := PM_ADDRESS; TestCmd.command := 0x00;
       TestCmd.CRC := 0 |} in
  TestCmd.set_CRC
    (ModRTU_CRC (TestCmd.bytes testCmd) (TestCmd.sizeof - sizeof_UInt16))
    testCmd.

Definition checkChannel : M Z :=
  printPackage (TestCmd.bytes testCmd) TestCmd.sizeof OUT ;;
  write (TestCmd.bytes testCmd) TestCmd.sizeof ;;
  usleep TIME_OUT ;;
  ' (len, buf) <- nb_read_impl ;;
  if len =? 0 then ret CHECK_CHANNEL_TIME_OUT
  else
    printPackage buf len IN ;;
    ret (checkResult_1b buf len).

Definition initCmd : InitCmd.t :=
  let initCmd :=
    {| InitCmd.address := PM_ADDRESS; InitCmd.command := 0x01;
       InitCmd.accessLevel := 0x01;
       InitCmd.password := [0x01; 0x01; 0x01; 0x01; 0x01; 0x01];
       InitCmd.CRC := 0 |} in
  InitCmd.set_CRC
    (ModRTU_CRC (InitCmd.bytes initCmd) (InitCmd.sizeof - sizeof_UInt16))
    initCmd.

Definition initConnection : M Z :=
  printPackage (InitCmd.bytes initCmd) InitCmd.sizeof OUT ;;
  write (InitCmd.bytes initCmd) InitCmd.sizeof ;;
  usleep TIME_OUT ;;
  ' (len, buf) <- nb_read ;;
  printPackage buf len IN ;;
  ret (checkResult_1b buf len).

Definition byeCmd : ByeCmd.t :=
  let byeCmd :=
    {| ByeCmd.address := PM_ADDRESS; ByeCmd.command := 0x02;
       ByeCmd.CRC := 0 |} in
  ByeCmd.set_CRC
    (ModRTU_CRC (ByeCmd.bytes byeCmd) (ByeCmd.sizeof - sizeof_UInt16))
    byeCmd.

Definition closeConnection : M Z :=
  printPackage (ByeCmd.bytes byeCmd) ByeCmd.sizeof OUT ;;
  write (ByeCmd.bytes byeCmd) ByeCmd.sizeof ;;
  usleep TIME_OUT ;;
  ' (len, buf) <- nb_read ;;
  printPackage buf len IN ;;
  ret (checkResult_1b buf len).

Definition getUCmd : ReadParamCmd.t :=
  let getUCmd :=
    {| ReadParamCmd.address := PM_ADDRESS; ReadParamCmd.command := 0x08;
       ReadParamCmd.paramId := 0x16; ReadParamCmd.BWRI := 0x11;
       ReadParamCmd.CRC := 0 |} in
  ReadParamCmd.set_CRC
    (ModRTU_CRC (ReadParamCmd.bytes getUCmd)
                (ReadParamCmd.sizeof - sizeof_UInt16))
    getUCmd.

Definition getU (U : P3V.t) : M (Z * P3V.t) :=
  printPackage (ReadParamCmd.bytes getUCmd) ReadParamCmd.sizeof OUT ;;
  write (ReadParamCmd.bytes getUCmd) ReadParamCmd.sizeof ;;
  usleep TIME_OUT ;;
  ' (len, buf) <- nb_read ;;
  printPackage buf len IN ;;
  let checkResult := checkResult_3x3b buf len in
  if OK =? checkResult then
    let res := Result_3x3b.overlay buf in
    let U := P3V.set_p1 (B3F (Result_3x3b.p1 res) F100) U in
    let U := P3V.set_p2 (B3F (Result_3x3b.p2 res) F100) U in
    let U := P3V.set_p3 (B3F (Result_3x3b.p3 res) F100) U in
    ret (checkResult, U)
  else ret (checkResult, U).

Definition getICmd : ReadParamCmd.t :=
  let getICmd :=
    {| ReadParamCmd.address := PM_ADDRESS; ReadParamCmd.command := 0x08;
       ReadParamCmd.paramId := 0x16; ReadParamCmd.BWRI := 0x21;
       ReadParamCmd.CRC := 0 |} in
  ReadParamCmd.set_CRC
    (ModRTU_CRC (ReadParamCmd.bytes getICmd)
                (ReadParamCmd.sizeof - sizeof_UInt16))
    getICmd.

Definition getI (I : P3V.t) : M (Z * P3V.t) :=
  printPackage (ReadParamCmd.bytes getICmd) ReadParamCmd.sizeof OUT ;;
  write (ReadParamCmd.bytes getICmd) ReadParamCmd.sizeof ;;
  usleep TIME_OUT ;;
  ' (len, buf) <- nb_read ;;
  printPackage buf len IN ;;
  let checkResult := checkResult_3x3b buf len in
  if OK =? checkResult then
    let res := Result_3x3b.overlay buf in
    let I := P3V.set_p1 (B3F (Result_3x3b.p1 res) F1000) I in
    let I := P3V.set_p2 (B3F (Result_3x3b.p2 res) F1000) I in
    let I := P3V.set_p3 (B3F (Result_3x3b.p3 res) F1000) I in
    ret (checkResult, I)
  else ret (checkResult, I).

Definition getCosCmd : ReadParamCmd.t :=
  let getCosCmd :=
    {| ReadParamCmd.address := PM_ADDRESS; ReadParamCmd.command := 0x08;
       ReadParamCmd.paramId := 0x16; ReadParamCmd.BWRI := 0x30;
       ReadParamCmd.CRC := 0 |} in
  ReadParamCmd.set_CRC
    (ModRTU_CRC (ReadParamCmd.bytes getCosCmd)
                (ReadParamCmd.sizeof - sizeof_UInt16))
    getCosCmd.

Definition getCosF (C : P3VS.t) : M (Z * P3VS.t) :=
  printPackage (ReadParamCmd.bytes getCosCmd) ReadParamCmd.sizeof OUT ;;
  write (ReadParamCmd.bytes getCosCmd) ReadParamCmd.sizeof ;;
  usleep TIME_OUT ;;
  ' (len, buf) <- nb_read ;;
  printPackage buf len IN ;;
  let checkResult := checkResult_4x3b buf len in
  if OK =? checkResult then
    let res := Result_4x3b.overlay buf in
    let C := P3VS.set_p1 (B3F (Result_4x3b.p1 res) F1000) C in
    let C := P3VS.set_p2 (B3F (Result_4x3b.p2 res) F1000) C in
    let C := P3VS.set_p3 (B3F (Result_4x3b.p3 res) F1000) C in
    let C := P3VS.set_sum (B3F (Result_4x3b.sum res) F1000) C in
    ret (checkResult, C)
  else ret (checkResult, C).

Definition getFCmd : ReadParamCmd.t :=
  let getFCmd :=
    {| ReadParamCmd.address := PM_ADDRESS; ReadParamCmd.command := 0x08;
       ReadParamCmd.paramId := 0x16; ReadParamCmd.BWRI := 0x40;
       ReadParamCmd.CRC := 0 |} in
  ReadParamCmd.set_CRC
    (ModRTU_CRC (ReadParamCmd.bytes getFCmd)
                (ReadParamCmd.sizeof - sizeof_UInt16))
    getFCmd.

Definition getF (f : float) : M (Z * float) :=
  printPackage (ReadParamCmd.bytes getFCmd) ReadParamCmd.sizeof OUT ;;
  write (ReadParamCmd.bytes getFCmd) ReadParamCmd.sizeof ;;
  usleep TIME_OUT ;;
  ' (len, buf) <- nb_read ;;
  printPackage buf len IN ;;
  let checkResult := checkResult_3b buf len in
  if OK =? checkResult then
    let res := Result_3b.overlay buf in
    let f := B3F (Result_3b.res res) F100 in
    ret (checkResult, f)
  else ret (checkResult, f).

Definition getACmd : ReadParamCmd.t :=
  let getACmd :=
    {| ReadParamCmd.address := PM_ADDRESS; ReadParamCmd.command := 0x08;
       ReadParamCmd.paramId := 0x16; ReadParamCmd.BWRI := 0x51;
       ReadParamCmd.CRC := 0 |} in
  ReadParamCmd.set_CRC
    (ModRTU_CRC (ReadParamCmd.bytes getACmd)
                (ReadParamCmd.sizeof - sizeof_UInt16))
    getACmd.

Definition getA (A : P3V.t) : M (Z * P3V.t) :=
  printPackage (ReadParamCmd.bytes getACmd) ReadParamCmd.sizeof OUT ;;
  write (ReadParamCmd.bytes getACmd) ReadParamCmd.sizeof ;;
  usleep TIME_OUT ;;
  ' (len, buf) <- nb_read ;;
  printPackage buf len IN ;;
  let checkResult := checkResult_3x3b buf len in
  if OK =? checkResult then
    let res := Result_3x3b.overlay buf in
    let A := P3V.set_p1 (B3F (Result_3x3b.p1 res) F100) A in
    let A := P3V.set_p2 (B3F (Result_3x3b.p2 res) F100) A in
    let A := P3V.set_p3 (B3F (Result_3x3b.p3 res) F100) A in
    ret (checkResult, A)
  else ret (checkResult, A).

Definition getPCmd : ReadParamCmd.t :=
  let getPCmd :=
    {| ReadParamCmd.address := PM_ADDRESS; ReadParamCmd.command := 0x08;
       ReadParamCmd.paramId := 0x16; ReadParamCmd.BWRI := 0x00;
       ReadParamCmd.CRC := 0 |} in
  ReadParamCmd.set_CRC
    (ModRTU_CRC (ReadParamCmd.bytes getPCmd)
                (ReadParamCmd.sizeof - sizeof_UInt16))
    getPCmd.

Definition getP (P : P3VS.t) : M (Z * P3VS.t) :=
  printPackage (ReadParamCmd.bytes getPCmd) ReadParamCmd.sizeof OUT ;;
  write (ReadParamCmd.bytes getPCmd) ReadParamCmd.sizeof ;;
  usleep TIME_OUT ;;
  ' (len, buf) <- nb_read ;;
  printPackage buf len IN ;;
  let checkResult := checkResult_4x3b buf len in
  if OK =? checkResult then
    let res := Result_4x3b.overlay buf in
    let P := P3VS.set_p1 (B3F (Result_4x3b.p1 res) F1000) P in
    let P := P3VS.set_p2 (B3F (Result_4x3b.p2 res) F1000) P in
    let P := P3VS.set_p3 (B3F (Result_4x3b.p3 res) F1000) P in
    let P := P3VS.set_sum (B3F (Result_4x3b.sum res) F1000) P in
    ret (checkResult, P)
  else ret (checkResult, P).

Definition getSCmd : ReadParamCmd.t :=
  let getSCmd :=
    {| ReadParamCmd.address := PM_ADDRESS; ReadParamCmd.command := 0x08;
       ReadParamCmd.paramId := 0x16; ReadParamCmd.BWRI := 0x08;
       ReadParamCmd.CRC := 0 |} in
  ReadParamCmd.set_CRC
    (ModRTU_CRC (ReadParamCmd.bytes getSCmd)
                (ReadParamCmd.sizeof - sizeof_UInt16))
    getSCmd.

Definition getS (S : P3VS.t) : M (Z * P3VS.t) :=
  printPackage (ReadParamCmd.bytes getSCmd) ReadParamCmd.sizeof OUT ;;
  write (ReadParamCmd.bytes getSCmd) ReadParamCmd.sizeof ;;
  usleep TIME_OUT ;;
  ' (len, buf) <- nb_read ;;
  printPackage buf len IN ;;
  let checkResult := checkResult_4x3b buf len in
  if OK =? checkResult then
    let res := Result_4x3b.overlay buf in
    let S := P3VS.set_p1 (B3F (Result_4x3b.p1 res) F1000) S in
    let S := P3VS.set_p2 (B3F (Result_4x3b.p2 res) F1000) S in
    let S := P3VS.set_p3 (B3F (Result_4x3b.p3 res) F1000) S in
    let S := P3VS.set_sum (B3F (Result_4x3b.sum res) F1000) S in
    ret (checkResult, S)
  else ret (checkResult, S).

Definition getWCmd (periodId month tariffNo : Z) : ReadParamCmd.t :=
  let getWCmd :=
    {| ReadParamCmd.address := PM_ADDRESS; ReadParamCmd.command := 0x05;
       ReadParamCmd.paramId :=
         uint8 (int32 (Z.lor (int32 (Z.shiftl periodId 4)) (Z.land month 0xF)));
       ReadParamCmd.BWRI := uint8 tariffNo;
       ReadParamCmd.CRC := 0 |} in
  ReadParamCmd.set_CRC
    (ModRTU_CRC (ReadParamCmd.bytes getWCmd)
                (ReadParamCmd.sizeof - sizeof_UInt16))
    getWCmd.

Definition getW (W : P3VS.t) (periodId month tariffNo : Z) : M (Z * P3VS.t) :=
  printPackage (ReadParamCmd.bytes (getWCmd periodId month tariffNo))
               ReadParamCmd.sizeof OUT ;;
  write (ReadParamCmd.bytes (getWCmd periodId month tariffNo))
        ReadParamCmd.sizeof ;;
  usleep TIME_OUT ;;
  ' (len, buf) <- nb_read ;;
  printPackage buf len IN ;;
  let checkResult := checkResult_4x4b buf len in
  if OK =? checkResult then
    let res := Result_4x4b.overlay buf in
    let W := P3VS.set_p1 (B4F (Result_4x4b.p1 res) F1000) W in
    let W := P3VS.set_p2 (B4F (Result_4x4b.p2 res) F1000) W in
    let W := P3VS.set_p3 (B4F (Result_4x4b.p3 res) F1000) W in
    let W := P3VS.set_sum (B4F (Result_4x4b.sum res) F1000) W in
    ret (checkResult, W)
  else ret (checkResult, W).

(** The body of [case OK:] in [main]. *)
Definition main_case_OK (v : Vars.t) : M Vars.t :=
  r <- checkChannel ;;
  (if negb (OK =? r)
   then exitFailure "Power meter communication channel test failed."
   else ret tt) ;;
  r <- initConnection ;;
  (if negb (OK =? r)
   then exitFailure "Power meter connection initialisation error."
   else ret tt) ;;
  ' (r, x) <- getU (Vars.U v) ;;
  let v := Vars.set_U x v in
  (if negb (OK =? r) then exitFailure "Cannot collect voltage data."
   else ret tt) ;;
  ' (r, x) <- getI (Vars.I v) ;;
  let v := Vars.set_I x v in
  (if negb (OK =? r) then exitFailure "Cannot collect current data."
   else ret tt) ;;
  ' (r, x) <- getCosF (Vars.C v) ;;
  let v := Vars.set_C x v in
  (if negb (OK =? r) then exitFailure "Cannot collect cos(f) data."
   else ret tt) ;;
  ' (r, x) <- getF (Vars.f v) ;;
  let v := Vars.set_f x v in
  (if negb (OK =? r) then exitFailure "Cannot collect grid frequency data."
   else ret tt) ;;
  ' (r, x) <- getA (Vars.A v) ;;
  let v := Vars.set_A x v in
  (if negb (OK =? r) then exitFailure "Cannot collect phase angles data."
   else ret tt) ;;
  ' (r, x) <- getP (Vars.P v) ;;
  let v := Vars.set_P x v in
  (if negb (OK =? r)
   then exitFailure "Cannot collect active power consumption data."
   else ret tt) ;;
  ' (r, x) <- getS (Vars.S v) ;;
  let v := Vars.set_S x v in
  (if negb (OK =? r)
   then exitFailure "Cannot collect reactive power consumption data."
   else ret tt) ;;
  ' (c, v) <-
    (' (r, x) <- getW (Vars.PR v) PP_RESET 0 0 ;;
     ret (negb (OK =? r), Vars.set_PR x v)) ;;
  ' (c, v) <-
    (if c then ret (true, v)
     else
       ' (r, x) <- getW (Vars.PY v) PP_YESTERDAY 0 0 ;;
       ret (negb (OK =? r), Vars.set_PY x v)) ;;
  ' (c, v) <-
    (if c then ret (true, v)
     else
       ' (r, x) <- getW (Vars.PT v) PP_TODAY 0 0 ;;
       ret (negb (OK =? r), Vars.set_PT x v)) ;;
  (if c then exitFailure "Cannot collect power counters data." else ret tt) ;;
  r <- closeConnection ;;
  (if negb (OK =? r) then exitFailure "Power meter connection closing error."
   else ret tt) ;;
  ret v.

(** The body of [case CHECK_CHANNEL_TIME_OUT:] in [main]. *)
Definition main_case_TIME_OUT (v : Vars.t) : Vars.t :=
  let v := Vars.set_U {| P3V.p1 := F0; P3V.p2 := F0; P3V.p3 := F0 |} v in
  let v := Vars.set_I {| P3V.p1 := F0; P3V.p2 := F0; P3V.p3 := F0 |} v in
  let v := Vars.set_P
    {| P3VS.sum := F0; P3VS.p1 := F0; P3VS.p2 := F0; P3VS.p3 := F0 |} v in
  let v := Vars.set_S
    {| P3VS.sum := F0; P3VS.p1 := F0; P3VS.p2 := F0; P3VS.p3 := F0 |} v in
  v.

(** [main] from the [switch] on: the options are parsed and the serial
    port is open and configured; [v] is what the result variables hold
    when they are declared. *)
Definition main (v : Vars.t) : M Z :=
  r <- checkChannel ;;
  v <- (if r =? OK then main_case_OK v
        else if r =? CHECK_CHANNEL_TIME_OUT then ret (main_case_TIME_OUT v)
        else exitFailure "Check channel failure.") ;;
  close ;;
  tcsetattr ;;
  emit (EvPrintResults v) ;;
  exit EXIT_OK.

(** ** Observations on a run *)

(** The request frames written to the line, oldest first. *)
Fixpoint commands (t : list Event) : list (list Z) :=
  match t with
  | [] => []
  | EvWrite data :: t' => data :: commands t'
  | _ :: t' => commands t'
  end.

(** A fresh process: nothing called yet. *)
Definition boot (debug : bool) (script : list Response) : World :=
  {| debugPrint := debug; line := script; trace := [] |}.

(** The request frame of each command kind, as the function that issues
    it builds and writes it. *)
Inductive Command :=
| CmdTest
| CmdInit
| CmdBye
| CmdGetU
| CmdGetI
| CmdGetCosF
| CmdGetF
| CmdGetA
| CmdGetP
| CmdGetS
| CmdGetW (periodId month tariffNo : Z).

Definition request (c : Command) : list Z :=
  match c with
  | CmdTest => TestCmd.bytes testCmd
  | CmdInit => InitCmd.bytes initCmd
  | CmdBye => ByeCmd.bytes byeCmd
  | CmdGetU => ReadParamCmd.bytes getUCmd
  | CmdGetI => ReadParamCmd.bytes getICmd
  | CmdGetCosF => ReadParamCmd.bytes getCosCmd
  | CmdGetF => ReadParamCmd.bytes getFCmd
  | CmdGetA => ReadParamCmd.bytes getACmd
  | CmdGetP => ReadParamCmd.bytes getPCmd
  | CmdGetS => ReadParamCmd.bytes getSCmd
  | CmdGetW periodId month tariffNo =>
      ReadParamCmd.bytes (getWCmd periodId month tariffNo)
  end.

(** The response shape each command kind is validated against. *)
Definition shape_of (c : Command) : Shape :=
  match c with
  | CmdTest | CmdInit | CmdBye => Shape_1b
  | CmdGetU | CmdGetI | CmdGetA => Shape_3x3b
  | CmdGetCosF | CmdGetP | CmdGetS => Shape_4x3b
  | CmdGetF => Shape_3b
  | CmdGetW _ _ _ => Shape_4x4b
  end.

(** A frame made of [body] followed by its checksum, as the meter sends
    one. *)
Definition framed (body : list Z) : list Z :=
  body ++ store_UInt16 (ModRTU_CRC body (Z.of_nat (List.length body))).

(** A scale factor: a positive finite binary32 number. *)
Definition positive_scale (x : float) : Prop :=
  match x with
  | S754_finite false m e => bounded 24 128 m e = true
  | _ => False
  end.

(** [x < 0.0] and [0.0 <= x] as the comparisons of C decide them. *)
Definition float_negative (x : float) : Prop := SFltb x F0 = true.
Definition float_nonnegative (x : float) : Prop := SFleb F0 x = true.

(** [x] is finite and lies within half a unit in its last place of the
    fraction [num / den]: it is [num / den] rounded to nearest. *)
Definition rounds (num den : Z) (x : float) : Prop :=
  match x with
  | S754_finite s m e =>
      let v := if s then Z.neg m else Z.pos m in
      0 < den /\
      if 0 <=? e
      then 2 * Z.abs (v * 2 ^ e * den - num) <= 2 ^ e * den
      else 2 * Z.abs (v * den - num * 2 ^ (- e)) <= den
  | _ => False
  end.

(** [lower_bound k m e]: the positive mantissa [m] at exponent [e] denotes
    a number that is at least [2 ^ k]. *)
Definition lower_bound (k m e : Z) : Prop := 1 <= m /\ 2 ^ (k - e) <= m.

(** ** The session as a list of guarded steps *)

(** Whether the validator of command [c] accepts what the line delivers
    in answer to it. *)
Definition accepted (c : Command) (r : Response) : bool :=
  match r with
  | ReadData data =>
      checkResult_of (shape_of c) data (Z.of_nat (List.length data)) =? OK
  | _ => false
  end.

(** How many of the commands [cmds], taken in order, the script answers
    acceptably before the first answer that is not. *)
Fixpoint accepted_prefix (cmds : list Command) (script : list Response) : nat :=
  match cmds, script with
  | c :: cmds', r :: script' =>
      if accepted c r then S (accepted_prefix cmds' script') else O
  | _, _ => O
  end.

(** The command sequence of [case OK:] preceded by the probe of the
    [switch], and the sequence with a single probe. *)
Definition issued_sequence : list Command :=
  [CmdTest; CmdTest; CmdInit; CmdGetU; CmdGetI; CmdGetCosF; CmdGetF; CmdGetA;
   CmdGetP; CmdGetS; CmdGetW PP_RESET 0 0; CmdGetW PP_YESTERDAY 0 0;
   CmdGetW PP_TODAY 0 0; CmdBye].

Definition single_probe_sequence : list Command :=
  [CmdTest; CmdInit; CmdGetU; CmdGetI; CmdGetCosF; CmdGetF; CmdGetA;
   CmdGetP; CmdGetS; CmdGetW PP_RESET 0 0; CmdGetW PP_YESTERDAY 0 0;
   CmdGetW PP_TODAY 0 0; CmdBye].

(** The events of a request/response exchange: all but [close],
    [tcsetattr] and the printing of the results. *)
Definition exchange_event (e : Event) : bool :=
  match e with
  | EvClose | EvTcsetattr | EvPrintResults _ => false
  | _ => true
  end.

(** Every [write] in the trace is directly followed by [usleep(TIME_OUT)]
    and then by the [select] that waits for the answer. *)
Fixpoint paced (t : list Event) : bool :=
  match t with
  | [] => true
  | EvWrite _ :: t' =>
      match t' with
      | EvUsleep usec :: EvSelect _ :: _ => (usec =? TIME_OUT) && paced t'
      | _ => false
      end
  | _ :: t' => paced t'
  end.

(** What a call of a command function does, as seen from outside: it
    appends the events of one exchange for command [c], well paced, and
    it returns OK exactly when the line delivers an accepted answer, which
    it consumes. *)
Definition exchanges {T} (c : Command) (code : T -> Z) (X : M T) : Prop :=
  forall w, exists o w' evs,
    X w = (o, w') /\
    trace w' = trace w ++ evs /\
    debugPrint w' = debugPrint w /\
    commands evs = [request c] /\
    forallb exchange_event evs = true /\
    paced evs = true /\
    match line w with
    | r :: rs =>
        if accepted c r
        then (exists t, o = Ret t /\ code t = OK) /\ line w' = rs
        else o = Exit EXIT_FAIL \/ exists t, o = Ret t /\ code t <> OK
    | [] => o = Exit EXIT_FAIL \/ exists t, o = Ret t /\ code t <> OK
    end.

(** One guarded call of [case OK:]: [if (OK != f(fd, &x)) exitFailure(msg);]
    with the command it issues, its effect on the result variables and
    the message of its guard. *)
Record Step := {
  step_cmd : Command;
  step_run : Vars.t -> M (Z * Vars.t);
  step_msg : string
}.

Definition guarded (s : Step) (v : Vars.t) : M Vars.t :=
  ' (r, v') <- step_run s v ;;
  (if negb (OK =? r) then exitFailure (step_msg s) else ret tt) ;;
  ret v'.

Fixpoint run_steps (ss : list Step) (v : Vars.t) : M Vars.t :=
  match ss with
  | [] => ret v
  | s :: ss' => v' <- guarded s v ;; run_steps ss' v'
  end.

(** A function without output argument, and one writing through a pointer
    to one of the result variables. *)
Definition no_output (X : M Z) : Vars.t -> M (Z * Vars.t) :=
  fun v => r <- X ;; ret (r, v).

Definition output {A} (get : Vars.t -> A) (set : A -> Vars.t -> Vars.t)
    (X : A -> M (Z * A)) : Vars.t -> M (Z * Vars.t) :=
  fun v => ' (r, x) <- X (get v) ;; ret (r, set x v).

(** The calls of [case OK:] in program order.  The three [getW] calls
    share one guard. *)
Definition case_OK_steps : list Step :=
  [ {| step_cmd := CmdTest; step_run := no_output checkChannel;
       step_msg := "Power meter communication channel test failed." |};
    {| step_cmd := CmdInit; step_run := no_output initConnection;
       step_msg := "Power meter connection initialisation error." |};
    {| step_cmd := CmdGetU; step_run := output Vars.U Vars.set_U getU;
       step_msg := "Cannot collect voltage data." |};
    {| step_cmd := CmdGetI; step_run := output Vars.I Vars.set_I getI;
       step_msg := "Cannot collect current data." |};
    {| step_cmd := CmdGetCosF; step_run := output Vars.C Vars.set_C getCosF;
       step_msg := "Cannot collect cos(f) data." |};
    {| step_cmd := CmdGetF; step_run := output Vars.f Vars.set_f getF;
       step_msg := "Cannot collect grid frequency data." |};
    {| step_cmd := CmdGetA; step_run := output Vars.A Vars.set_A getA;
       step_msg := "Cannot collect phase angles data." |};
    {| step_cmd := CmdGetP; step_run := output Vars.P Vars.set_P getP;
       step_msg := "Cannot collect active power consumption data." |};
    {| step_cmd := CmdGetS; step_run := output Vars.S Vars.set_S getS;
       step_msg := "Cannot collect reactive power consumption data." |};
    {| step_cmd := CmdGetW PP_RESET 0 0;
       step_run := output Vars.PR Vars.set_PR (fun W => getW W PP_RESET 0 0);
       step_msg := "Cannot collect power counters data." |};
    {| step_cmd := CmdGetW PP_YESTERDAY 0 0;
       step_run := output Vars.PY Vars.set_PY (fun W => getW W PP_YESTERDAY 0 0);
       step_msg := "Cannot collect power counters data." |};
    {| step_cmd := CmdGetW PP_TODAY 0 0;
       step_run := output Vars.PT Vars.set_PT (fun W => getW W PP_TODAY 0 0);
       step_msg := "Cannot collect power counters data." |};
    {| step_cmd := CmdBye; step_run := no_output closeConnection;
       step_msg := "Power meter connection closing error." |} ].

(** A duration in milliseconds, in the microseconds [usleep] counts. *)
Definition milliseconds (ms : Z) : Z := 1000 * ms.

(** A query function writes through its output pointer only when it
    returns OK. *)
Definition writes_only_on_OK {A} (X : A -> M (Z * A)) : Prop :=
  forall out w code out' w',
    X out w = (Ret (code, out'), w') -> code <> OK -> out' = out.

(** ** Sample inputs *)

(** Result variables holding 100.0 everywhere: one possible content of
    the uninitialised locals of [main]. *)
Definition stale_vars : Vars.t :=
  let x := {| P3V.p1 := F100; P3V.p2 := F100; P3V.p3 := F100 |} in
  let y := {| P3VS.sum := F100; P3VS.p1 := F100; P3VS.p2 := F100;
              P3VS.p3 := F100 |} in
  {| Vars.U := x; Vars.I := x; Vars.A := x; Vars.C := y; Vars.P := y;
     Vars.S := y; Vars.PR := y; Vars.PY := y; Vars.PT := y; Vars.f := F100 |}.

(** Well-formed answers of the meter: a status byte, and payloads of 3,
    9, 12 and 16 bytes after the address byte. *)
Definition status_reply (status : Z) : Response :=
  ReadData (framed [PM_ADDRESS; status]).
Definition reply_3b : Response := ReadData (framed [0; 0x00; 0x88; 0x13]).
Definition reply_3x3b : Response :=
  ReadData (framed [0; 0x00; 0x5C; 0x59; 0x00; 0x5D; 0x59; 0x00; 0x5E; 0x59]).
Definition reply_4x3b : Response :=
  ReadData (framed [0; 0x00; 0x03; 0x00; 0x00; 0x01; 0x00; 0x00; 0x01; 0x00;
                    0x00; 0x01; 0x00]).
Definition reply_4x4b : Response :=
  ReadData (framed [0; 0x00; 0x00; 0x10; 0x27; 0x00; 0x00; 0x10; 0x27;
                    0xFF; 0xFF; 0xFF; 0xFF; 0xFF; 0xFF; 0xFF; 0xFF]).

(** A line on which every command of a session is answered acceptably. *)
Definition healthy_line : list Response :=
  [status_reply OK; status_reply OK; status_reply OK;
   reply_3x3b; reply_3x3b; reply_4x3b; reply_3b; reply_3x3b;
   reply_4x3b; reply_4x3b; reply_4x4b; reply_4x4b; reply_4x4b;
   status_reply OK].


(** [represents x v]: the finite float [x] denotes exactly the integer [v]. *)
Definition represents (x : float) (v : Z) : Prop :=
  match x with
  | S754_zero _ => v = 0
  | S754_finite s m e =>
      let sm := if s then Z.neg m else Z.pos m in
      if 0 <=? e then v = sm * 2 ^ e else sm = v * 2 ^ (- e)
  | _ => False
  end.

(** A silent line: [select] times out (or nothing is left to deliver), or
    [read] delivers no byte. *)
Definition silent (script : list Response) : bool :=
  match script with
  | [] => true
  | SelectTimeout :: _ => true
  | ReadData [] :: _ => true
  | _ => false
  end.

(** The trace without the hex dumps of [printPackage]. *)
Definition quiet (t : list Event) : list Event :=
  filter (fun e => match e with EvPrintPackage _ _ => false | _ => true end) t.

(** The bytes a response delivers. *)
Definition payload (r : Response) : list Z :=
  match r with
  | ReadData data => data
  | _ => []
  end.

(** ** The results a successful session prints *)

(** The vectors the query functions store from an accepted buffer. *)
Definition decode_3x3b (buf : list Z) (factor : float) : P3V.t :=
  let res := Result_3x3b.overlay buf in
  {| P3V.p1 := B3F (Result_3x3b.p1 res) factor;
     P3V.p2 := B3F (Result_3x3b.p2 res) factor;
     P3V.p3 := B3F (Result_3x3b.p3 res) factor |}.

Definition decode_4x3b (buf : list Z) (factor : float) : P3VS.t :=
  let res := Result_4x3b.overlay buf in
  {| P3VS.sum := B3F (Result_4x3b.sum res) factor;
     P3VS.p1 := B3F (Result_4x3b.p1 res) factor;
     P3VS.p2 := B3F (Result_4x3b.p2 res) factor;
     P3VS.p3 := B3F (Result_4x3b.p3 res) factor |}.

Definition decode_4x4b (buf : list Z) (factor : float) : P3VS.t :=
  let res := Result_4x4b.overlay buf in
  {| P3VS.sum := B4F (Result_4x4b.sum res) factor;
     P3VS.p1 := B4F (Result_4x4b.p1 res) factor;
     P3VS.p2 := B4F (Result_4x4b.p2 res) factor;
     P3VS.p3 := B4F (Result_4x4b.p3 res) factor |}.

(** The results decoded from the answers of a session: the fourth answer
    carries the voltages, and so on in the order of the queries. *)
Definition results_of (script : list Response) : Vars.t :=
  let data (i : nat) := payload (nth i script SelectTimeout) in
  {| Vars.U := decode_3x3b (data 3%nat) F100;
     Vars.I := decode_3x3b (data 4%nat) F1000;
     Vars.A := decode_3x3b (data 7%nat) F100;
     Vars.C := decode_4x3b (data 5%nat) F1000;
     Vars.P := decode_4x3b (data 8%nat) F1000;
     Vars.S := decode_4x3b (data 9%nat) F1000;
     Vars.PR := decode_4x4b (data 10%nat) F1000;
     Vars.PY := decode_4x4b (data 11%nat) F1000;
     Vars.PT := decode_4x4b (data 12%nat) F1000;
     Vars.f := B3F (Result_3b.res (Result_3b.overlay (data 6%nat))) F100 |}.

(** What each guarded step of [case OK:] stores when its answer is
    accepted, and the effect of a run of accepted answers. *)
Definition case_OK_updates : list (list Z -> Vars.t -> Vars.t) :=
  [ (fun _ v => v);
    (fun _ v => v);
    (fun d v => Vars.set_U (decode_3x3b d F100) v);
    (fun d v => Vars.set_I (decode_3x3b d F1000) v);
    (fun d v => Vars.set_C (decode_4x3b d F1000) v);
    (fun d v => Vars.set_f (B3F (Result_3b.res (Result_3b.overlay d)) F100) v);
    (fun d v => Vars.set_A (decode_3x3b d F100) v);
    (fun d v => Vars.set_P (decode_4x3b d F1000) v);
    (fun d v => Vars.set_S (decode_4x3b d F1000) v);
    (fun d v => Vars.set_PR (decode_4x4b d F1000) v);
    (fun d v => Vars.set_PY (decode_4x4b d F1000) v);
    (fun d v => Vars.set_PT (decode_4x4b d F1000) v);
    (fun _ v => v) ].

Fixpoint apply_updates (upds : list (list Z -> Vars.t -> Vars.t))
    (script : list Response) (v : Vars.t) : Vars.t :=
  match upds, script with
  | u :: upds', r :: script' => apply_updates upds' script' (u (payload r) v)
  | _, _ => v
  end.

Definition answers (s : Step) (upd : list Z -> Vars.t -> Vars.t) : Prop :=
  forall v w d rs,
    line w = ReadData d :: rs ->
    accepted (step_cmd s) (ReadData d) = true ->
    fst (step_run s v w) = Ret (OK, upd d v).

(** ** The effect of [--debug] *)

(** Two states of the process that differ in the hex dumps only: the
    second runs without [--debug] and has dumped nothing. *)
Definition same_but_dumps (w1 w2 : World) : Prop :=
  debugPrint w2 = false /\ line w1 = line w2 /\ quiet (trace w1) = trace w2.

(** A computation that takes such states to such states, with the same
    outcome. *)
Definition dump_insensitive {A} (X : M A) : Prop :=
  forall w1 w2, same_but_dumps w1 w2 ->
    fst (X w1) = fst (X w2) /\ same_but_dumps (snd (X w1)) (snd (X w2)).

Definition is_dump (e : Event) : bool :=
  match e with EvPrintPackage _ _ => true | _ => false end.

(** ** Command line *)

Definition OPT_DEBUG : string := "--debug".
Definition OPT_HELP : string := "--help".

(** The assignment [debugPrint = 1]. *)
Definition set_debugPrint (b : bool) : M unit :=
  fun w => (Ret tt, {| debugPrint := b; line := line w; trace := trace w |}).

Definition printUsage : M unit :=
  printf ("Usage: mercury236 [OPTIONS] ..." ++ LF ++ CR ++ LF ++ CR)%string ;;
  printf (TAB ++ "--debug" ++ TAB ++ TAB ++ "to print extra debug info"
          ++ LF ++ CR)%string ;;
  printf (TAB ++ "--help" ++ TAB ++ TAB ++ "prints this screen"
          ++ LF ++ CR)%string.

(** The loop [for (int i=1; i<argc; i++)] at the head of [main], over
    [args[1]], ..., [args[argc-1]]. *)
Fixpoint parse_options (args : list string) : M unit :=
  match args with
  | [] => ret tt
  | arg :: args' =>
      (if String.eqb OPT_DEBUG arg then set_debugPrint true
       else printUsage ;; exit EXIT_OK) ;;
      parse_options args'
  end.

(** What [printUsage] prints. *)
Definition usage_screen : list Event :=
  [ EvPrintf ("Usage: mercury236 [OPTIONS] ..." ++ LF ++ CR ++ LF ++ CR)%string;
    EvPrintf (TAB ++ "--debug" ++ TAB ++ TAB ++ "to print extra debug info"
              ++ LF ++ CR)%string;
    EvPrintf (TAB ++ "--help" ++ TAB ++ TAB ++ "prints this screen"
              ++ LF ++ CR)%string ].

(** ** Release of the descriptor *)





(** * Properties *)

(** ** Bit-level facts on machine integers *)

Lemma uint16_small x : is_uint16 x -> uint16 x = x.
Proof. unfold is_uint16, uint16. intros H. apply Z.mod_small. lia. Qed.

Lemma uint8_range x : is_byte (uint8 x).
Proof. unfold is_byte, uint8. pose proof (Z.mod_pos_bound x (2 ^ 8)). lia. Qed.

Lemma testbit_above k x n :
  0 <= x < 2 ^ k -> 0 <= k <= n -> Z.testbit x n = false.
Proof.
  intros Hx Hk.
  rewrite <- (Z.mod_small x (2 ^ k)) by lia.
  apply Z.mod_pow2_bits_high. lia.
Qed.

Lemma lxor_below k a b :
  0 <= k -> 0 <= a < 2 ^ k -> 0 <= b < 2 ^ k -> 0 <= Z.lxor a b < 2 ^ k.
Proof.
  intros Hk Ha Hb.
  assert (H0 : 0 <= Z.lxor a b) by (apply Z.lxor_nonneg; lia).
  split; [exact H0|].
  destruct (Z.eq_dec (Z.lxor a b) 0) as [E|E].
  - rewrite E. apply Z.pow_pos_nonneg; lia.
  - assert (Hk' : 0 < k).
    { destruct (Z.eq_dec k 0) as [->|]; [|lia].
      change (2 ^ 0) with 1 in *.
      exfalso. apply E. replace a with 0 by lia. replace b with 0 by lia.
      reflexivity. }
    apply Z.log2_lt_pow2; [lia|].
    pose proof (Z.log2_lxor a b (proj1 Ha) (proj1 Hb)) as Hl.
    assert (Z.log2 a < k).
    { destruct (Z.eq_dec a 0) as [->|]; [simpl; lia|]. apply Z.log2_lt_pow2; lia. }
    assert (Z.log2 b < k).
    { destruct (Z.eq_dec b 0) as [->|]; [simpl; lia|]. apply Z.log2_lt_pow2; lia. }
    lia.
Qed.

Lemma shiftr1_uint16 crc : is_uint16 crc -> is_uint16 (Z.shiftr crc 1).
Proof.
  unfold is_uint16. intros H. rewrite Z.shiftr_div_pow2 by lia.
  change (2 ^ 1) with 2.
  split; [apply Z.div_pos; lia | apply Z.div_lt_upper_bound; lia].
Qed.

Lemma low_bit_test crc : negb (Z.land crc 0x0001 =? 0) = Z.testbit crc 0.
Proof.
  change 1 with (Z.ones 1). rewrite Z.land_ones by lia.
  change (2 ^ 1) with 2. rewrite <- Z.bit0_mod.
  destruct (Z.testbit crc 0); reflexivity.
Qed.

(** ** The checksum *)

Lemma shift_step_uint16 crc :
  is_uint16 crc -> is_uint16 (ChecksumSpec.shift_step crc).
Proof.
  intros H. unfold ChecksumSpec.shift_step.
  pose proof (shiftr1_uint16 crc H) as Hs.
  destruct (Z.testbit crc 0); [|exact Hs].
  unfold is_uint16 in *. change 65536 with (2 ^ 16).
  apply lxor_below; lia.
Qed.

Lemma crc_bits_iter i : forall crc,
  is_uint16 crc ->
  crc_bits i crc = Nat.iter i ChecksumSpec.shift_step crc /\
  is_uint16 (crc_bits i crc).
Proof.
  induction i as [|i IH]; intros crc H.
  - simpl. auto.
  - rewrite Nat.iter_succ_r. cbn [crc_bits].
    rewrite low_bit_test.
    pose proof (shift_step_uint16 crc H) as Hstep.
    pose proof (shiftr1_uint16 crc H) as Hs.
    unfold ChecksumSpec.shift_step in *.
    destruct (Z.testbit crc 0).
    + rewrite (uint16_small (Z.shiftr crc 1)) by exact Hs.
      rewrite uint16_small by exact Hstep. apply IH. exact Hstep.
    + rewrite uint16_small by exact Hs. apply IH. exact Hs.
Qed.

Lemma xor_low_byte crc b :
  is_uint16 crc -> is_byte b ->
  uint16 (Z.lxor crc (uint16 b)) = ChecksumSpec.xor_into_low_byte crc b /\
  is_uint16 (ChecksumSpec.xor_into_low_byte crc b).
Proof.
  intros Hc Hb.
  assert (Hb16 : is_uint16 b) by (unfold is_uint16, is_byte in *; lia).
  rewrite (uint16_small b) by exact Hb16.
  assert (Hx : is_uint16 (Z.lxor crc b)).
  { unfold is_uint16 in *. change 65536 with (2 ^ 16). apply lxor_below; lia. }
  rewrite uint16_small by exact Hx.
  assert (E : Z.lxor crc b = ChecksumSpec.xor_into_low_byte crc b).
  { unfold ChecksumSpec.xor_into_low_byte.
    apply Z.bits_inj'. intros n Hn.
    rewrite Z.lor_spec, !Z.lxor_spec, !Z.land_spec.
    change 0xFF00 with (Z.shiftl (Z.ones 8) 8). change 0xFF with (Z.ones 8).
    rewrite Z.shiftl_spec by lia.
    destruct (Z_lt_le_dec n 8) as [L|L].
    - rewrite (Z.testbit_neg_r _ (n - 8)) by lia.
      rewrite Z.testbit_ones_nonneg by lia.
      replace (n <? 8) with true by (symmetry; apply Z.ltb_lt; lia).
      rewrite andb_false_r, andb_true_r. reflexivity.
    - rewrite (testbit_above 8 b n) by (unfold is_byte in Hb; simpl; lia).
      rewrite (Z.testbit_ones_nonneg 8 n) by lia.
      replace (n <? 8) with false by (symmetry; apply Z.ltb_ge; lia).
      rewrite andb_false_r, !xorb_false_r, orb_false_r.
      destruct (Z_lt_le_dec n 16) as [L'|L'].
      + rewrite Z.testbit_ones_nonneg by lia.
        replace (n - 8 <? 8) with true by (symmetry; apply Z.ltb_lt; lia).
        rewrite andb_true_r. reflexivity.
      + rewrite (testbit_above 16 crc n) by (unfold is_uint16 in Hc; simpl; lia).
        reflexivity. }
  rewrite <- E. auto.
Qed.

Lemma crc_bytes_fold buf : forall crc,
  Forall is_byte buf -> is_uint16 crc ->
  crc_bytes buf crc = fold_left ChecksumSpec.absorb buf crc /\
  is_uint16 (crc_bytes buf crc).
Proof.
  induction buf as [|b rest IH]; intros crc Hb Hc.
  - simpl. auto.
  - inversion Hb as [|? ? Hb1 Hb2]; subst.
    cbn [crc_bytes fold_left].
    destruct (xor_low_byte crc b Hc Hb1) as [E R].
    rewrite E.
    destruct (crc_bits_iter 8 _ R) as [E' R'].
    unfold ChecksumSpec.absorb at 2. rewrite <- E'.
    apply IH; assumption.
Qed.

Lemma Forall_firstn {A} (P : A -> Prop) n : forall l,
  Forall P l -> Forall P (firstn n l).
Proof.
  induction n as [|n IH]; intros l H; [constructor|].
  destruct H; simpl; constructor; auto.
Qed.

Lemma ModRTU_CRC_uint16 buf len : Forall is_byte buf -> is_uint16 (ModRTU_CRC buf len).
Proof.
  intros H. unfold ModRTU_CRC.
  apply crc_bytes_fold; [|unfold is_uint16; lia].
  apply Forall_firstn. exact H.
Qed.

(** C3. For every byte sequence, [ModRTU_CRC] over the whole of it equals
    the checksum of section 4.1: start from 0xFFFF; for each byte, XOR it
    into the low byte of the accumulator, then eight times shift right by
    one, XOR-ing with 0xA001 when the bit shifted out was set; the final
    accumulator is returned as it is, with no byte swap. *)
Theorem ModRTU_CRC_refines_checksum (bytes : list Z) :
  Forall is_byte bytes ->
  ModRTU_CRC bytes (Z.of_nat (List.length bytes)) = ChecksumSpec.checksum bytes.
Proof.
  intros H. unfold ModRTU_CRC, ChecksumSpec.checksum.
  rewrite Nat2Z.id, firstn_all.
  apply crc_bytes_fold; [exact H | unfold is_uint16; lia].
Qed.

Lemma ModRTU_CRC_refines_checksum_witness :
  Forall is_byte [0x31; 0x32; 0x33; 0x34; 0x35; 0x36; 0x37; 0x38; 0x39] /\
  ModRTU_CRC [0x31; 0x32; 0x33; 0x34; 0x35; 0x36; 0x37; 0x38; 0x39] 9 = 0x4B37 /\
  ChecksumSpec.checksum [0x31; 0x32; 0x33; 0x34; 0x35; 0x36; 0x37; 0x38; 0x39]
    = 0x4B37.
Proof.
  assert (H : Forall is_byte [0x31; 0x32; 0x33; 0x34; 0x35; 0x36; 0x37; 0x38; 0x39])
    by (repeat constructor; unfold is_byte; lia).
  split; [exact H|].
  split; [reflexivity|].
  rewrite <- (ModRTU_CRC_refines_checksum _ H). reflexivity.
Defined.

(** ** Frames *)

Lemma load_store_UInt16 (body : list Z) (x : Z) :
  is_uint16 x -> load_UInt16 (body ++ store_UInt16 x) (List.length body) = x.
Proof.
  intros Hx. unfold load_UInt16, at_, store_UInt16.
  rewrite (app_nth2 body) by lia. rewrite (app_nth2 body) by lia.
  replace (List.length body - List.length body)%nat with 0%nat by lia.
  replace (S (List.length body) - List.length body)%nat with 1%nat by lia.
  cbn [nth]. unfold uint8.
  apply Z.bits_inj'. intros n Hn.
  rewrite Z.lor_spec, Z.shiftl_spec by lia.
  destruct (Z_lt_le_dec n 8) as [L|L].
  - rewrite Z.mod_pow2_bits_low by lia.
    rewrite (Z.testbit_neg_r _ (n - 8)) by lia. apply orb_false_r.
  - rewrite Z.mod_pow2_bits_high by lia. cbn [orb].
    destruct (Z_lt_le_dec n 16) as [L'|L'].
    + rewrite Z.mod_pow2_bits_low by lia.
      rewrite Z.shiftr_spec by lia. f_equal. lia.
    + rewrite Z.mod_pow2_bits_high by lia.
      symmetry. apply (testbit_above 16); [exact Hx | lia].
Qed.

Lemma ModRTU_CRC_prefix (body tail : list Z) :
  ModRTU_CRC (body ++ tail) (Z.of_nat (List.length body)) = crc_bytes body 0xFFFF.
Proof.
  unfold ModRTU_CRC. rewrite Nat2Z.id.
  rewrite firstn_app, Nat.sub_diag, firstn_all. cbn [firstn].
  rewrite app_nil_r. reflexivity.
Qed.

(** A frame closed by the checksum of its body passes the comparison the
    validators make, whatever the checksum field held while the checksum
    was computed. *)
Lemma checksum_appended (body pad : list Z) :
  Forall is_byte body ->
  let crc := ModRTU_CRC (body ++ pad) (Z.of_nat (List.length body)) in
  let frame := body ++ store_UInt16 crc in
  ModRTU_CRC frame (Z.of_nat (List.length frame) - sizeof_UInt16)
  = embedded_crc frame.
Proof.
  intros Hb crc frame. subst frame. unfold embedded_crc.
  rewrite length_app. cbn [store_UInt16 List.length].
  replace (Z.of_nat (List.length body + 2) - sizeof_UInt16)
    with (Z.of_nat (List.length body)) by (unfold sizeof_UInt16; lia).
  replace (List.length body + 2 - 2)%nat with (List.length body) by lia.
  rewrite ModRTU_CRC_prefix.
  change [uint8 crc; uint8 (Z.shiftr crc 8)] with (store_UInt16 crc).
  rewrite load_store_UInt16.
  - subst crc. rewrite ModRTU_CRC_prefix. reflexivity.
  - subst crc. rewrite ModRTU_CRC_prefix.
    apply crc_bytes_fold; [exact Hb | unfold is_uint16; lia].
Qed.

(** C8. For every command kind (probe, initialize, terminate, the seven
    read-parameter requests and the energy-counter read with any period,
    month and tariff), the checksum recomputed over all bytes of the
    request frame but the trailing two is the checksum the frame carries
    in those two bytes. *)
Theorem request_checksum_roundtrip (c : Command) :
  ModRTU_CRC (request c) (Z.of_nat (List.length (request c)) - sizeof_UInt16)
  = embedded_crc (request c).
Proof.
  destruct c as [ | | | | | | | | | |periodId month tariffNo];
    [vm_compute; reflexivity ..|].
  unfold request, getWCmd.
  set (p := uint8 (int32 (Z.lor (int32 (Z.shiftl periodId 4)) (Z.land month 15)))).
  set (q := uint8 tariffNo).
  apply (checksum_appended [PM_ADDRESS; 0x05; p; q] (store_UInt16 0)).
  repeat constructor; try apply uint8_range; unfold is_byte, PM_ADDRESS; lia.
Qed.

(** ** Validators *)

Lemma land_0x0F_range x : 0 <= Z.land x 0x0F < 16.
Proof.
  change 0x0F with (Z.ones 4). rewrite Z.land_ones by lia.
  apply Z.mod_pos_bound. reflexivity.
Qed.

Lemma embedded_crc_at (buf : list Z) (n : nat) :
  List.length buf = (n + 2)%nat -> embedded_crc buf = load_UInt16 buf n.
Proof. intros H. unfold embedded_crc. rewrite H. f_equal. lia. Qed.

Lemma classify_cascade (size crcfield final len crc : Z) :
  final <> WRONG_RESULT_SIZE -> final <> WRONG_CRC ->
  let r := if negb (len =? size) then WRONG_RESULT_SIZE
           else if negb (crc =? crcfield) then WRONG_CRC else final in
  (r = WRONG_RESULT_SIZE <-> len <> size) /\
  (len = size -> (r = WRONG_CRC <-> crc <> crcfield)) /\
  (len = size -> crc = crcfield -> r = final).
Proof.
  intros F1 F2 r. subst r.
  destruct (Z.eqb_spec len size) as [E|E];
    destruct (Z.eqb_spec crc crcfield) as [C|C]; cbn [negb];
    unfold WRONG_RESULT_SIZE, WRONG_CRC in *;
    repeat split; intros; try congruence; try lia; try tauto.
Qed.

(** C2. Whatever the buffer and the expected shape: the validator answers
    WRONG_RESULT_SIZE exactly when the length is not the shape's; for a
    buffer of the right length it answers WRONG_CRC exactly when the
    checksum recomputed over all bytes but the last two differs from the
    one carried in them; and when both pass it answers the low four bits
    of the status byte, the second byte of the buffer, for the 1-byte
    shape and OK for the other shapes. *)
Theorem checkResult_classification (s : Shape) (buf : list Z) :
  let len := Z.of_nat (List.length buf) in
  let r := checkResult_of s buf len in
  (r = WRONG_RESULT_SIZE <-> len <> shape_size s) /\
  (len = shape_size s ->
   (r = WRONG_CRC <-> ModRTU_CRC buf (len - sizeof_UInt16) <> embedded_crc buf)) /\
  (len = shape_size s ->
   ModRTU_CRC buf (len - sizeof_UInt16) = embedded_crc buf ->
   r = match s with
       | Shape_1b => Z.land (at_ buf 1) 0x0F
       | _ => OK
       end).
Proof.
  intros len r.
  pose proof (land_0x0F_range (at_ buf 1)) as Hst.
  assert (Hemb : len = shape_size s ->
                 embedded_crc buf = load_UInt16 buf (Z.to_nat (shape_size s) - 2)).
  { intros E. apply embedded_crc_at. subst len.
    destruct s; cbn [shape_size] in *;
      unfold Result_1b.sizeof, Result_3b.sizeof, Result_3x3b.sizeof,
             Result_4x3b.sizeof, Result_4x4b.sizeof in *; lia. }
  assert (G : forall final,
    final <> WRONG_RESULT_SIZE -> final <> WRONG_CRC ->
    r = (if negb (len =? shape_size s) then WRONG_RESULT_SIZE
         else if negb (ModRTU_CRC buf (len - sizeof_UInt16)
                       =? load_UInt16 buf (Z.to_nat (shape_size s) - 2))
              then WRONG_CRC else final) ->
    (r = WRONG_RESULT_SIZE <-> len <> shape_size s) /\
    (len = shape_size s ->
     (r = WRONG_CRC <-> ModRTU_CRC buf (len - sizeof_UInt16) <> embedded_crc buf)) /\
    (len = shape_size s ->
     ModRTU_CRC buf (len - sizeof_UInt16) = embedded_crc buf -> r = final)).
  { intros final F1 F2 ->.
    destruct (classify_cascade (shape_size s)
                (load_UInt16 buf (Z.to_nat (shape_size s) - 2)) final len
                (ModRTU_CRC buf (len - sizeof_UInt16)) F1 F2) as (A & B & C).
    split; [exact A|]. split.
    - intros E. rewrite (Hemb E). exact (B E).
    - intros E. rewrite (Hemb E). exact (C E). }
  destruct s; apply G; try reflexivity;
    unfold WRONG_RESULT_SIZE, WRONG_CRC, OK; lia.
Qed.

(** ** Binary32 arithmetic: lower bounds survive rounding *)

Lemma pow2_le (a b : Z) : a <= b -> 2 ^ a <= 2 ^ b.
Proof. intros H. apply Z.pow_le_mono_r; lia. Qed.

Lemma pow2_pos (a : Z) : 0 <= a -> 0 < 2 ^ a.
Proof. intros H. apply Z.pow_pos_nonneg; lia. Qed.

Lemma pow2_split (a b : Z) : 0 <= a -> 0 <= b -> 2 ^ (a + b) = 2 ^ a * 2 ^ b.
Proof. intros. apply Z.pow_add_r; assumption. Qed.

Lemma digits2_pos_bounds (p : positive) :
  2 ^ (Zpos (digits2_pos p) - 1) <= Zpos p < 2 ^ Zpos (digits2_pos p).
Proof.
  induction p as [p IH|p IH|]; cbn [digits2_pos].
  - rewrite Pos2Z.inj_succ.
    replace (Z.succ (Zpos (digits2_pos p)) - 1) with (Zpos (digits2_pos p) - 1 + 1) by lia.
    rewrite Z.pow_succ_r by lia.
    rewrite pow2_split by lia. change (2 ^ 1) with 2. lia.
  - rewrite Pos2Z.inj_succ.
    replace (Z.succ (Zpos (digits2_pos p)) - 1) with (Zpos (digits2_pos p) - 1 + 1) by lia.
    rewrite Z.pow_succ_r by lia.
    rewrite pow2_split by lia. change (2 ^ 1) with 2. lia.
  - simpl. lia.
Qed.

Lemma shr_1_div2 (mrs : shr_record) :
  0 <= shr_m mrs -> shr_m (shr_1 mrs) = shr_m mrs / 2.
Proof.
  destruct mrs as [m r s]. cbn [shr_m]. intros H.
  rewrite <- Z.div2_div.
  destruct m as [|[p|p|]|p]; try reflexivity; lia.
Qed.

Lemma iter_pos_shr_1 (p : positive) : forall mrs,
  0 <= shr_m mrs -> shr_m (iter_pos shr_1 p mrs) = shr_m mrs / 2 ^ Zpos p.
Proof.
  induction p as [p IH|p IH|]; intros mrs H; cbn [iter_pos].
  - assert (H1 : 0 <= shr_m (shr_1 mrs)).
    { rewrite shr_1_div2 by exact H. apply Z.div_pos; lia. }
    assert (H2 : 0 <= shr_m (iter_pos shr_1 p (shr_1 mrs))).
    { rewrite IH by exact H1. apply Z.div_pos; [lia | apply pow2_pos; lia]. }
    rewrite IH by exact H2. rewrite IH by exact H1. rewrite shr_1_div2 by exact H.
    pose proof (pow2_pos (Zpos p)) as Hp.
    assert (E : 2 ^ Zpos p~1 = 2 * 2 ^ Zpos p * 2 ^ Zpos p).
    { change 2 with (2 ^ 1) at 2. rewrite <- !pow2_split by lia. f_equal. lia. }
    rewrite !Z.div_div by lia. rewrite E. f_equal. lia.
  - assert (H2 : 0 <= shr_m (iter_pos shr_1 p mrs)).
    { rewrite IH by exact H. apply Z.div_pos; [lia | apply pow2_pos; lia]. }
    rewrite IH by exact H2. rewrite IH by exact H.
    pose proof (pow2_pos (Zpos p)) as Hp.
    assert (E : 2 ^ Zpos p~0 = 2 ^ Zpos p * 2 ^ Zpos p).
    { rewrite <- pow2_split by lia. f_equal. lia. }
    rewrite Z.div_div by lia. rewrite E. reflexivity.
  - rewrite shr_1_div2 by exact H. reflexivity.
Qed.

Lemma shr_record_of_loc_m (m : Z) (l : location) :
  shr_m (shr_record_of_loc m l) = m.
Proof. destruct l as [|[ | | ]]; reflexivity. Qed.

Lemma lower_bound_shift (k m e n : Z) :
  0 < n -> 2 ^ n <= m -> lower_bound k m e -> lower_bound k (m / 2 ^ n) (e + n).
Proof.
  intros Hn Hm [H1 H2]. pose proof (pow2_pos n) as Hp. split.
  - apply Z.div_le_lower_bound; lia.
  - destruct (Z_lt_le_dec (k - (e + n)) 0) as [L|L].
    + rewrite Z.pow_neg_r by exact L. apply Z.div_pos; lia.
    + apply Z.div_le_lower_bound; [lia|].
      rewrite Z.mul_comm, <- pow2_split by lia.
      replace (k - (e + n) + n) with (k - e) by lia. exact H2.
Qed.

Section Binary32.


Lemma shr_fexp_lower_bound (k m e : Z) (l : location) :
  emin 24 128 <= k -> lower_bound k m e ->
  lower_bound k (shr_m (fst (shr_fexp 24 128 m e l)))
                (snd (shr_fexp 24 128 m e l)).
Proof.
  intros Hk HB. pose proof HB as [H1 H2].
  unfold shr_fexp, shr.
  destruct (fexp 24 128 (Zdigits2 m + e) - e) as [|n|n] eqn:En;
    cbn [fst snd]; rewrite ?shr_record_of_loc_m; try exact HB.
  rewrite iter_pos_shr_1 by (rewrite shr_record_of_loc_m; lia).
  rewrite shr_record_of_loc_m.
  apply lower_bound_shift; [lia| |exact HB].
  destruct m as [|p|p]; try lia.
  cbn [Zdigits2] in En. pose proof (digits2_pos_bounds p) as [D1 D2].
  unfold fexp, emin in *.
  destruct (Z.max_spec (Zpos (digits2_pos p) + e - 24) (3 - 128 - 24)) as [[_ E]|[_ E]];
    rewrite E in En.
  - eapply Z.le_trans; [|exact H2]. apply pow2_le. lia.
  - eapply Z.le_trans; [|exact D1]. apply pow2_le. lia.
Qed.

Lemma round_nearest_even_ge (m : Z) (l : location) : m <= round_nearest_even m l.
Proof.
  destruct l as [|[ | | ]]; cbn [round_nearest_even]; try lia.
  destruct (Z.even m); lia.
Qed.

Lemma lower_bound_mono (k m m' e : Z) :
  m <= m' -> lower_bound k m e -> lower_bound k m' e.
Proof. unfold lower_bound. lia. Qed.

(** Rounding a positive number that is at least the smallest subnormal
    gives a finite number with the same lower bound, or an infinity; the
    sign is kept. *)
Lemma binary_round_aux_lower_bound (k : Z) (sx : bool) (m e : Z) (l : location) :
  emin 24 128 <= k -> lower_bound k m e ->
  binary_round_aux 24 128 sx m e l = S754_infinity sx \/
  exists m' e', binary_round_aux 24 128 sx m e l = S754_finite sx m' e' /\
                lower_bound k (Zpos m') e'.
Proof.
  intros Hk HB. unfold binary_round_aux.
  pose proof (shr_fexp_lower_bound k m e l Hk HB) as S1.
  destruct (shr_fexp 24 128 m e l) as [mrs1 e1]. cbn [fst snd] in S1.
  pose proof (round_nearest_even_ge (shr_m mrs1) (loc_of_shr_record mrs1)) as R.
  pose proof (lower_bound_mono _ _ _ _ R S1) as S1'.
  pose proof (shr_fexp_lower_bound k _ e1 loc_Exact Hk S1') as S2.
  destruct (shr_fexp 24 128 _ e1 loc_Exact) as [mrs2 e2]. cbn [fst snd] in S2.
  destruct (shr_m mrs2) as [|p|p] eqn:Em; try (destruct S2; lia).
  destruct (e2 <=? 128 - 24); [right; eauto | left; reflexivity].
Qed.

Lemma iter_xO_pow2 (m d : positive) :
  Zpos (Pos.iter xO m d) = Zpos m * 2 ^ Zpos d.
Proof.
  induction d as [|d IH] using Pos.peano_ind.
  - cbn [Pos.iter]. change (2 ^ 1) with 2. lia.
  - rewrite Pos.iter_succ, Pos2Z.inj_xO, IH, Pos2Z.inj_succ.
    rewrite Z.pow_succ_r by lia. lia.
Qed.

Lemma below_scaled (X a t s : Z) :
  1 <= a -> 2 ^ t <= a -> 0 <= s -> X <= 2 ^ (t + s) -> X <= a * 2 ^ s.
Proof.
  intros Ha Ht Hs HX. pose proof (pow2_pos s Hs) as Hp.
  eapply Z.le_trans; [exact HX|].
  destruct (Z_lt_le_dec t 0) as [L|L].
  - eapply Z.le_trans; [apply (pow2_le (t + s) s); lia|]. nia.
  - rewrite pow2_split by lia. apply Z.mul_le_mono_nonneg_r; lia.
Qed.

Lemma shl_align_lower_bound (k : Z) (p : positive) (e e' : Z) :
  lower_bound k (Zpos p) e ->
  lower_bound k (Zpos (fst (shl_align p e e'))) (snd (shl_align p e e')).
Proof.
  intros [H1 H2]. unfold shl_align.
  destruct (e' - e) as [|d|d] eqn:Ed; cbn [fst snd]; try (split; assumption).
  rewrite iter_xO_pow2. split.
  - pose proof (pow2_pos (Zpos d)). nia.
  - apply (below_scaled _ _ (k - e)); try lia. apply pow2_le. lia.
Qed.

(** A non-zero [int] converts to a float of the same sign that is at
    least one in magnitude. *)
Lemma float_of_int_lower_bound (v : Z) :
  v <> 0 ->
  float_of_int v = S754_infinity (v <? 0) \/
  exists m e, float_of_int v = S754_finite (v <? 0) m e /\
              lower_bound 0 (Zpos m) e.
Proof.
  intros Hv. unfold float_of_int, binary_normalize, binary_round.
  destruct v as [|p|p]; [congruence| |];
    (assert (H0 : lower_bound 0 (Zpos p) 0) by (unfold lower_bound; simpl; lia);
     pose proof (shl_align_lower_bound 0 p 0
                   (fexp 24 128 (Zpos (digits2_pos p) + 0)) H0) as HS;
     destruct (shl_align p 0 (fexp 24 128 (Zpos (digits2_pos p) + 0)))
       as [mz ez]; cbn [fst snd] in HS;
     apply (binary_round_aux_lower_bound 0); [unfold emin; lia | exact HS]).
Qed.

Lemma bounded_inv (m : positive) (e : Z) :
  bounded 24 128 m e = true ->
  Zpos (digits2_pos m) <= 24 /\ -149 <= e <= 104.
Proof.
  unfold bounded, canonical_mantissa, fexp, emin. intros H.
  apply andb_true_iff in H. destruct H as [H1 H2].
  apply Z.eqb_eq in H1. apply Z.leb_le in H2. lia.
Qed.

Lemma div_core_lower_bound (mx ex my ey d1 d2 : Z) :
  2 ^ (d1 - 1) <= mx -> 0 < my < 2 ^ d2 -> 1 <= d2 <= 24 -> ey <= 104 ->
  lower_bound 0 mx ex ->
  let e' := Z.min (Z.max (d1 + ex - (d2 + ey) - 24) (3 - 128 - 24)) (ex - ey) in
  let s := ex - ey - e' in
  0 <= s /\ lower_bound (3 - 128 - 24) (mx * 2 ^ s / my) e'.
Proof.
  intros D1 D2 Hd2 Hey [L1 L2] e' s.
  assert (Hs : 0 <= s) by (subst s e'; lia).
  split; [exact Hs|].
  assert (G1 : my <= mx * 2 ^ s).
  { assert (C : d2 <= d1 - 1 + s \/ d2 <= 0 - ex + s) by (subst s e'; lia).
    destruct C as [C|C].
    - apply (below_scaled _ _ (d1 - 1)); try assumption.
      eapply Z.le_trans; [apply Z.lt_le_incl, D2|]. apply pow2_le. exact C.
    - apply (below_scaled _ _ (0 - ex)); try assumption.
      eapply Z.le_trans; [apply Z.lt_le_incl, D2|]. apply pow2_le. exact C. }
  split.
  - apply Z.div_le_lower_bound; lia.
  - apply Z.div_le_lower_bound; [lia|].
    destruct (Z_lt_le_dec (3 - 128 - 24 - e') 0) as [N|N].
    + rewrite Z.pow_neg_r by exact N. pose proof (pow2_pos s Hs). nia.
    + destruct (Z.eq_dec (3 - 128 - 24 - e') 0) as [Z0|NZ].
      * rewrite Z0. change (2 ^ 0) with 1. lia.
      * assert (S0 : s = 0) by (subst s e'; lia).
        rewrite S0. change (2 ^ 0) with 1. rewrite Z.mul_1_r.
        eapply Z.le_trans; [|exact L2].
        pose proof (pow2_pos (3 - 128 - 24 - e') N) as Hu.
        eapply Z.le_trans;
          [apply (Z.mul_le_mono_nonneg_r my (2 ^ d2)); lia|].
        rewrite <- pow2_split by lia.
        apply pow2_le. subst s e'. lia.
Qed.

(** Dividing a number of magnitude at least one by a finite non-zero
    binary32 number never gives a zero or a NaN: the quotient is finite or
    infinite, with the sign the operands give. *)
Lemma float_div_finite_sign (sx : bool) (mx : positive) (ex : Z)
      (sy : bool) (my : positive) (ey : Z) :
  lower_bound 0 (Zpos mx) ex -> bounded 24 128 my ey = true ->
  float_div (S754_finite sx mx ex) (S754_finite sy my ey)
    = S754_infinity (xorb sx sy) \/
  exists m e, float_div (S754_finite sx mx ex) (S754_finite sy my ey)
              = S754_finite (xorb sx sy) m e.
Proof.
  intros HL HB. apply bounded_inv in HB. destruct HB as [Hd [He1 He2]].
  pose proof (digits2_pos_bounds mx) as [X1 X2].
  pose proof (digits2_pos_bounds my) as [Y1 Y2].
  destruct (div_core_lower_bound (Zpos mx) ex (Zpos my) ey
              (Zpos (digits2_pos mx)) (Zpos (digits2_pos my)))
    as [Hs HQ]; try assumption; try lia.
  unfold float_div, SFdiv, SFdiv_core_binary. cbn [Zdigits2].
  unfold fexp, emin.
  set (e' := Z.min _ _) in *.
  set (s := ex - ey - e') in *.
  assert (Em : match s with
               | 0 => Zpos mx
               | Zpos _ => Z.shiftl (Zpos mx) s
               | Zneg _ => 0
               end = Zpos mx * 2 ^ s).
  { destruct s as [|p|p] eqn:Es; [change (2 ^ 0) with 1; lia | | lia].
    apply Z.shiftl_mul_pow2. lia. }
  rewrite Em.
  assert (Eq : fst (Z.div_eucl (Zpos mx * 2 ^ s) (Zpos my))
               = Zpos mx * 2 ^ s / Zpos my) by reflexivity.
  destruct (Z.div_eucl (Zpos mx * 2 ^ s) (Zpos my)) as [q r].
  cbn [fst] in Eq. rewrite Eq.
  destruct (binary_round_aux_lower_bound (3 - 128 - 24) (xorb sx sy)
              (Zpos mx * 2 ^ s / Zpos my) e' (new_location (Zpos my) r))
    as [E|(m & e & E & _)]; [unfold emin; lia | exact HQ | | ].
  - left. exact E.
  - right. exists m, e. exact E.
Qed.

End Binary32.

(** ** Value decoders *)

Lemma lor_shiftl_low (x y k : Z) :
  0 <= k -> 0 <= y < 2 ^ k -> Z.lor (Z.shiftl x k) y = x * 2 ^ k + y.
Proof.
  intros Hk Hy.
  assert (D : Z.land (Z.shiftl x k) y = 0).
  { apply Z.bits_inj'. intros n Hn.
    rewrite Z.land_spec, Z.bits_0, Z.shiftl_spec by lia.
    destruct (Z_lt_le_dec n k) as [L|L].
    - rewrite Z.testbit_neg_r by lia. reflexivity.
    - rewrite (testbit_above k y n) by lia. apply andb_false_r. }
  rewrite <- Z.lxor_lor by exact D.
  rewrite <- Z.add_nocarry_lxor by exact D.
  rewrite Z.shiftl_mul_pow2 by lia. reflexivity.
Qed.

Lemma pack3_value (b0 b1 b2 : Z) :
  is_byte b0 -> is_byte b1 -> is_byte b2 ->
  Z.lor (Z.lor (Z.shiftl b0 16) (Z.shiftl b2 8)) b1
  = b0 * 65536 + b2 * 256 + b1.
Proof.
  unfold is_byte. intros H0 H1 H2.
  rewrite (Z.shiftl_mul_pow2 b2 8) by lia.
  rewrite (lor_shiftl_low b0 (b2 * 2 ^ 8) 16) by lia.
  replace (b0 * 2 ^ 16 + b2 * 2 ^ 8) with (Z.shiftl (b0 * 256 + b2) 8)
    by (rewrite Z.shiftl_mul_pow2 by lia; lia).
  rewrite lor_shiftl_low by lia. lia.
Qed.

Lemma pack4_value (b0 b1 b2 b3 : Z) :
  is_byte b0 -> is_byte b1 -> is_byte b2 -> is_byte b3 ->
  Z.lor (Z.lor (Z.lor (Z.shiftl b1 24) (Z.shiftl b0 16)) (Z.shiftl b3 8)) b2
  = b1 * 16777216 + b0 * 65536 + b3 * 256 + b2.
Proof.
  unfold is_byte. intros H0 H1 H2 H3.
  rewrite (Z.shiftl_mul_pow2 b0 16) by lia.
  rewrite (lor_shiftl_low b1 (b0 * 2 ^ 16) 24) by lia.
  replace (b1 * 2 ^ 24 + b0 * 2 ^ 16) with (Z.shiftl (b1 * 256 + b0) 16)
    by (rewrite Z.shiftl_mul_pow2 by lia; lia).
  rewrite (Z.shiftl_mul_pow2 b3 8) by lia.
  rewrite (lor_shiftl_low (b1 * 256 + b0) (b3 * 2 ^ 8) 16) by lia.
  replace ((b1 * 256 + b0) * 2 ^ 16 + b3 * 2 ^ 8)
    with (Z.shiftl ((b1 * 256 + b0) * 256 + b3) 8)
    by (rewrite Z.shiftl_mul_pow2 by lia; lia).
  rewrite lor_shiftl_low by lia. lia.
Qed.

Lemma int32_small (x : Z) : - 2 ^ 31 <= x < 2 ^ 31 -> int32 x = x.
Proof. intros H. unfold int32. rewrite Z.mod_small; lia. Qed.

Lemma int32_high (x : Z) : 2 ^ 31 <= x < 2 ^ 32 -> int32 x = x - 2 ^ 32.
Proof.
  intros H. unfold int32.
  replace (x + 2 ^ 31) with (x - 2 ^ 31 + 1 * 2 ^ 32) by lia.
  rewrite Z.mod_add by lia. rewrite Z.mod_small; lia.
Qed.

Lemma B3F_value (b0 b1 b2 : Z) (factor : float) :
  is_byte b0 -> is_byte b1 -> is_byte b2 ->
  B3F [b0; b1; b2] factor
  = float_div (float_of_int (b0 * 65536 + b2 * 256 + b1)) factor.
Proof.
  intros H0 H1 H2. unfold B3F, at_. cbn [nth].
  rewrite pack3_value by assumption.
  rewrite int32_small by (unfold is_byte in *; lia). reflexivity.
Qed.

Lemma B4F_value (b0 b1 b2 b3 : Z) (factor : float) :
  is_byte b0 -> is_byte b1 -> is_byte b2 -> is_byte b3 ->
  B4F [b0; b1; b2; b3] factor
  = float_div
      (float_of_int
         (if b1 <? 0x80
          then b1 * 16777216 + b0 * 65536 + b3 * 256 + b2
          else b1 * 16777216 + b0 * 65536 + b3 * 256 + b2 - 4294967296))
      factor.
Proof.
  intros H0 H1 H2 H3. unfold B4F, at_. cbn [nth].
  rewrite pack4_value by assumption.
  destruct (Z.ltb_spec b1 0x80).
  - rewrite int32_small by (unfold is_byte in *; lia). reflexivity.
  - rewrite int32_high by (unfold is_byte in *; lia). reflexivity.
Qed.

(** C4. For every three bytes and every scale, [B3F] is the integer
    [(b[0] << 16) | (b[2] << 8) | b[1]], that is [b0 * 2^16 + b2 * 2^8 + b1],
    converted to float and divided by the scale; for every four bytes and
    every scale, [B4F] is the [int] [(b[1] << 24) | (b[0] << 16) |
    (b[3] << 8) | b[2]], that is [b1 * 2^24 + b0 * 2^16 + b3 * 2^8 + b2]
    read as a 32-bit two's complement number, converted to float and
    divided by the scale.  In particular [B3F {1,2,3} 100.0] is 66306/100 =
    663.06 and [B4F {1,2,3,4} 1000.0] is 33620995/1000 = 33620.995, each
    as the binary32 number nearest to it (10863575 * 2^-14 and
    8606975 * 2^-8). *)
Theorem decoders_formula :
  (forall b0 b1 b2 factor,
     is_byte b0 -> is_byte b1 -> is_byte b2 ->
     Z.lor (Z.lor (Z.shiftl b0 16) (Z.shiftl b2 8)) b1
       = b0 * 65536 + b2 * 256 + b1 /\
     B3F [b0; b1; b2] factor
       = float_div (float_of_int (b0 * 65536 + b2 * 256 + b1)) factor) /\
  (forall b0 b1 b2 b3 factor,
     is_byte b0 -> is_byte b1 -> is_byte b2 -> is_byte b3 ->
     Z.lor (Z.lor (Z.lor (Z.shiftl b1 24) (Z.shiftl b0 16)) (Z.shiftl b3 8)) b2
       = b1 * 16777216 + b0 * 65536 + b3 * 256 + b2 /\
     B4F [b0; b1; b2; b3] factor
       = float_div
           (float_of_int
              (if b1 <? 0x80
               then b1 * 16777216 + b0 * 65536 + b3 * 256 + b2
               else b1 * 16777216 + b0 * 65536 + b3 * 256 + b2 - 4294967296))
           factor) /\
  B3F [0x01; 0x02; 0x03] F100 = S754_finite false 10863575 (-14) /\
  rounds 66306 100 (B3F [0x01; 0x02; 0x03] F100) /\
  B4F [0x01; 0x02; 0x03; 0x04] F1000 = S754_finite false 8606975 (-8) /\
  rounds 33620995 1000 (B4F [0x01; 0x02; 0x03; 0x04] F1000).
Proof.
  split; [|split; [|split; [|split; [|split]]]].
  - intros. split; [apply pack3_value | apply B3F_value]; assumption.
  - intros. split; [apply pack4_value | apply B4F_value]; assumption.
  - reflexivity.
  - vm_compute. split; [reflexivity | discriminate].
  - reflexivity.
  - vm_compute. split; [reflexivity | discriminate].
Qed.

Lemma float_div_negative (v : Z) (factor : float) :
  v < 0 -> positive_scale factor ->
  float_negative (float_div (float_of_int v) factor).
Proof.
  intros Hv Hf. unfold float_negative.
  destruct factor as [ | | |[|] my ey]; try contradiction.
  cbn [positive_scale] in Hf.
  assert (Es : (v <? 0) = true) by (apply Z.ltb_lt; exact Hv).
  destruct (float_of_int_lower_bound v) as [E|(m & e & E & HL)]; [lia| |];
    rewrite E, Es.
  - reflexivity.
  - destruct (float_div_finite_sign true m e false my ey HL Hf)
      as [D|(m' & e' & D)]; rewrite D; reflexivity.
Qed.

Lemma float_div_nonnegative (v : Z) (factor : float) :
  0 <= v -> positive_scale factor ->
  float_nonnegative (float_div (float_of_int v) factor).
Proof.
  intros Hv Hf. unfold float_nonnegative.
  destruct factor as [ | | |[|] my ey]; try contradiction.
  cbn [positive_scale] in Hf.
  destruct (Z.eq_dec v 0) as [->|Hnz]; [reflexivity|].
  assert (Es : (v <? 0) = false) by (apply Z.ltb_ge; exact Hv).
  destruct (float_of_int_lower_bound v) as [E|(m & e & E & HL)]; [lia| |];
    rewrite E, Es.
  - reflexivity.
  - destruct (float_div_finite_sign false m e false my ey HL Hf)
      as [D|(m' & e' & D)]; rewrite D; reflexivity.
Qed.

(** C10. [B4F] reads the packed 32-bit pattern as a signed integer: for
    all four bytes whose byte at position 1 is at least 0x80 and every
    positive scale the result is negative; [B3F] gives a non-negative
    result for all three bytes and every positive scale. *)
Theorem decoder_signs :
  (forall b0 b1 b2 b3 factor,
     is_byte b0 -> is_byte b1 -> is_byte b2 -> is_byte b3 ->
     0x80 <= b1 -> positive_scale factor ->
     float_negative (B4F [b0; b1; b2; b3] factor)) /\
  (forall b0 b1 b2 factor,
     is_byte b0 -> is_byte b1 -> is_byte b2 ->
     positive_scale factor ->
     float_nonnegative (B3F [b0; b1; b2] factor)).
Proof.
  split.
  - intros b0 b1 b2 b3 factor H0 H1 H2 H3 Hs Hf.
    rewrite B4F_value by assumption.
    destruct (Z.ltb_spec b1 0x80); [lia|].
    apply float_div_negative; [unfold is_byte in *; lia | exact Hf].
  - intros b0 b1 b2 factor H0 H1 H2 Hf.
    rewrite B3F_value by assumption.
    apply float_div_nonnegative; [unfold is_byte in *; lia | exact Hf].
Qed.

Lemma decoder_signs_witness :
  float_negative (B4F [0xFF; 0xFF; 0xFF; 0xFF] F1000) /\
  float_nonnegative (B3F [0x00; 0x00; 0x00] F100).
Proof.
  split.
  - apply (proj1 decoder_signs); unfold is_byte; try lia. reflexivity.
  - apply (proj2 decoder_signs); unfold is_byte; try lia. reflexivity.
Defined.

(** ** The command functions as exchanges *)

Lemma checkResult_of_OK_size s d len : checkResult_of s d len = OK -> len = shape_size s.
Proof.
  destruct s; cbn [checkResult_of shape_size];
    unfold checkResult_1b, checkResult_3b, checkResult_3x3b, checkResult_4x3b, checkResult_4x4b;
    match goal with
    | |- context [len =? ?x] =>
        destruct (Z.eqb_spec len x) as [E|E]; cbn [negb];
        [intros _; exact E | unfold WRONG_RESULT_SIZE, OK; discriminate]
    end.
Qed.

(** Symbolic runs of the command functions keep the validators, the
    decoders and the checksum folded. *)
Local Arguments checkResult_1b : simpl never.
Local Arguments checkResult_3b : simpl never.
Local Arguments checkResult_3x3b : simpl never.
Local Arguments checkResult_4x3b : simpl never.
Local Arguments checkResult_4x4b : simpl never.
Local Arguments B3F : simpl never.
Local Arguments B4F : simpl never.
Local Arguments ModRTU_CRC : simpl never.
Local Arguments Z.of_nat : simpl never.
Local Arguments Z.to_nat : simpl never.
Local Arguments firstn : simpl never.
Local Arguments OK : simpl never.
Local Arguments uint8 : simpl never.
Local Arguments int32 : simpl never.
Local Arguments store_UInt16 : simpl never.


Lemma checkResult_of_size_0 s d : checkResult_of s d 0 <> OK.
Proof. destruct s; cbv; discriminate. Qed.

Ltac unfold_io :=
  unfold nb_read, nb_read_impl, select, read, printPackage, write, usleep,
         exitFailure, printf, exit, emit, bind, ret, log, advance.

Ltac close_events :=
  do 3 eexists;
  split; [reflexivity|];
  split; [cbn [trace]; rewrite <- ?app_assoc; reflexivity|];
  split; [reflexivity|];
  split; [reflexivity|];
  split; [reflexivity|];
  split; [reflexivity|].

Ltac rejected :=
  first [ left; reflexivity
        | right; eexists; split; [reflexivity|]; cbn [fst]; cbv beta;
          first [ assumption
                | cbv [CHECK_CHANNEL_TIME_OUT WRONG_RESULT_SIZE OK];
                  discriminate ] ].

Ltac data_case shape d :=
  let Hsz := fresh "Hsz" in
  let Hz := fresh "Hz" in
  let E0 := fresh "E0" in
  let Eok := fresh "Eok" in
  pose proof (checkResult_of_OK_size shape d (Z.of_nat (List.length d))) as Hsz;
  pose proof (checkResult_of_size_0 shape d) as Hz;
  cbn [checkResult_of shape_size] in Hsz, Hz;
  destruct (Z.eqb_spec (Z.of_nat (List.length d)) 0) as [E0|E0];
  [ rewrite E0 in *; apply Z.eqb_neq in Hz; rewrite Hz; cbn;
    close_events; rejected
  | match goal with
    | |- context [?cr =? OK] =>
        rewrite ?(Z.eqb_sym OK cr);
        destruct (Z.eqb_spec cr OK) as [Eok|Eok]
    end;
    [ cbn; close_events;
      split; [eexists; split; [reflexivity|]; cbn [fst]; cbv beta;
              first [reflexivity|assumption]
             | reflexivity]
    | cbn; close_events; rejected ] ].

Ltac exchange_cases shape :=
  let dbg := fresh "dbg" in
  let ln := fresh "ln" in
  let tr := fresh "tr" in
  let d := fresh "d" in
  let rs := fresh "rs" in
  intros [dbg ln tr];
  destruct ln as [|[| |d|] rs]; destruct dbg;
  unfold accepted, line;
  cbn [shape_of checkResult_of];
  unfold_io; cbn;
  first [ close_events; rejected | data_case shape d ].

Lemma checkChannel_exchanges : exchanges CmdTest (fun r => r) checkChannel.
Proof. unfold checkChannel. exchange_cases Shape_1b. Qed.

Lemma initConnection_exchanges : exchanges CmdInit (fun r => r) initConnection.
Proof. unfold initConnection. exchange_cases Shape_1b. Qed.

Lemma closeConnection_exchanges : exchanges CmdBye (fun r => r) closeConnection.
Proof. unfold closeConnection. exchange_cases Shape_1b. Qed.

Lemma getU_exchanges U : exchanges CmdGetU fst (getU U).
Proof. unfold getU. exchange_cases Shape_3x3b. Qed.

Lemma getI_exchanges I : exchanges CmdGetI fst (getI I).
Proof. unfold getI. exchange_cases Shape_3x3b. Qed.

Lemma getCosF_exchanges C : exchanges CmdGetCosF fst (getCosF C).
Proof. unfold getCosF. exchange_cases Shape_4x3b. Qed.

Lemma getF_exchanges f : exchanges CmdGetF fst (getF f).
Proof. unfold getF. exchange_cases Shape_3b. Qed.

Lemma getA_exchanges A : exchanges CmdGetA fst (getA A).
Proof. unfold getA. exchange_cases Shape_3x3b. Qed.

Lemma getP_exchanges P : exchanges CmdGetP fst (getP P).
Proof. unfold getP. exchange_cases Shape_4x3b. Qed.

Lemma getS_exchanges S : exchanges CmdGetS fst (getS S).
Proof. unfold getS. exchange_cases Shape_4x3b. Qed.

Lemma getW_exchanges W periodId month tariffNo :
  exchanges (CmdGetW periodId month tariffNo) fst (getW W periodId month tariffNo).
Proof. unfold getW. exchange_cases Shape_4x4b. Qed.

(** ** Traces *)

Lemma commands_app (a b : list Event) : commands (a ++ b) = commands a ++ commands b.
Proof.
  induction a as [|e a IH]; [reflexivity|].
  destruct e; cbn [commands app]; rewrite IH; reflexivity.
Qed.

Lemma paced_app (a b : list Event) :
  paced a = true -> paced b = true -> paced (a ++ b) = true.
Proof.
  intros Ha Hb. induction a as [|e a IH]; [exact Hb|].
  destruct e; try (cbn [paced app] in *; apply IH; exact Ha).
  cbn [paced app] in *.
  destruct a as [|[ | |usec| | | | | | ] [|[ | | |sec| | | | | ] a']];
    try discriminate.
  cbn [app]. apply andb_true_iff in Ha. destruct Ha as [Hu Hp].
  rewrite Hu. cbn [andb]. apply IH. exact Hp.
Qed.


(** ** Guarded steps *)

Lemma no_output_exchanges (c : Command) (X : M Z) (v : Vars.t) :
  exchanges c (fun r => r) X -> exchanges c fst (no_output X v).
Proof.
  intros HX w. destruct (HX w) as (o & w' & evs & E & Ht & Hd & Hc & Hf & Hp & Hl).
  unfold no_output, bind, ret. rewrite E.
  destruct o as [r|code].
  - exists (Ret (r, v)), w', evs. repeat (split; [assumption || reflexivity|]).
    destruct (line w) as [|r0 rs].
    + destruct Hl as [Hl|(t & Hl & Hn)]; [discriminate|].
      right. inversion Hl; subst. eexists; split; [reflexivity|exact Hn].
    + destruct (accepted c r0).
      * destruct Hl as [(t & Hl & Hn) Hr]. inversion Hl; subst.
        split; [eexists; split; [reflexivity|reflexivity]|reflexivity].
      * destruct Hl as [Hl|(t & Hl & Hn)]; [discriminate|].
        right. inversion Hl; subst. eexists; split; [reflexivity|exact Hn].
  - exists (Exit code), w', evs. repeat (split; [assumption || reflexivity|]).
    destruct (line w) as [|r0 rs].
    + destruct Hl as [Hl|(t & Hl & Hn)]; [left; inversion Hl; reflexivity|discriminate].
    + destruct (accepted c r0).
      * destruct Hl as [(t & Hl & Hn) Hr]. discriminate.
      * destruct Hl as [Hl|(t & Hl & Hn)]; [left; inversion Hl; reflexivity|discriminate].
Qed.

Lemma output_exchanges {A} (c : Command) (get : Vars.t -> A)
      (set : A -> Vars.t -> Vars.t) (X : A -> M (Z * A)) (v : Vars.t) :
  (forall a, exchanges c fst (X a)) -> exchanges c fst (output get set X v).
Proof.
  intros HX w.
  destruct (HX (get v) w) as (o & w' & evs & E & Ht & Hd & Hc & Hf & Hp & Hl).
  unfold output, bind, ret. rewrite E.
  destruct o as [[r x]|code].
  - exists (Ret (r, set x v)), w', evs.
    repeat (split; [assumption || reflexivity|]).
    destruct (line w) as [|r0 rs].
    + destruct Hl as [Hl|(t & Hl & Hn)]; [discriminate|].
      right. inversion Hl; subst. eexists; split; [reflexivity|exact Hn].
    + destruct (accepted c r0).
      * destruct Hl as [(t & Hl & Hn) Hr]. inversion Hl; subst.
        split; [eexists; split; [reflexivity|exact Hn]|reflexivity].
      * destruct Hl as [Hl|(t & Hl & Hn)]; [discriminate|].
        right. inversion Hl; subst. eexists; split; [reflexivity|exact Hn].
  - exists (Exit code), w', evs. repeat (split; [assumption || reflexivity|]).
    destruct (line w) as [|r0 rs].
    + destruct Hl as [Hl|(t & Hl & Hn)]; [left; inversion Hl; reflexivity|discriminate].
    + destruct (accepted c r0).
      * destruct Hl as [(t & Hl & Hn) Hr]. discriminate.
      * destruct Hl as [Hl|(t & Hl & Hn)]; [left; inversion Hl; reflexivity|discriminate].
Qed.

Lemma case_OK_steps_exchange :
  Forall (fun s => forall v, exchanges (step_cmd s) fst (step_run s v))
         case_OK_steps.
Proof.
  unfold case_OK_steps.
  repeat (constructor; [cbn [step_cmd step_run]; intros v|]);
    [ .. | constructor ].
  - apply no_output_exchanges, checkChannel_exchanges.
  - apply no_output_exchanges, initConnection_exchanges.
  - apply output_exchanges, getU_exchanges.
  - apply output_exchanges, getI_exchanges.
  - apply output_exchanges, getCosF_exchanges.
  - apply output_exchanges, getF_exchanges.
  - apply output_exchanges, getA_exchanges.
  - apply output_exchanges, getP_exchanges.
  - apply output_exchanges, getS_exchanges.
  - apply output_exchanges. intros a. apply getW_exchanges.
  - apply output_exchanges. intros a. apply getW_exchanges.
  - apply output_exchanges. intros a. apply getW_exchanges.
  - apply no_output_exchanges, closeConnection_exchanges.
Qed.

(** A run of guarded steps issues the commands of the steps in order, up
    to and including the first whose answer is not accepted; it returns
    when all are accepted and exits with EXIT_FAIL otherwise. *)
Lemma run_steps_spec (ss : list Step) :
  Forall (fun s => forall v, exchanges (step_cmd s) fst (step_run s v)) ss ->
  forall v w, exists o w' evs,
    run_steps ss v w = (o, w') /\
    trace w' = trace w ++ evs /\
    debugPrint w' = debugPrint w /\
    forallb exchange_event evs = true /\
    paced evs = true /\
    let n := accepted_prefix (map step_cmd ss) (line w) in
    commands evs = map request (firstn (S n) (map step_cmd ss)) /\
    (n = List.length ss -> exists v', o = Ret v') /\
    ((n < List.length ss)%nat -> o = Exit EXIT_FAIL).
Proof.
  induction 1 as [|s ss Hs Hss IH]; intros v w.
  - exists (Ret v), w, []. cbn. rewrite app_nil_r.
    repeat (split; [reflexivity|]). split; [eauto | lia].
  - destruct (Hs v w) as (o & w1 & evs & E & Ht & Hd & Hc & Hf & Hp & Hl).
    cbn [run_steps]. unfold bind at 1. unfold guarded, bind at 1. rewrite E.
    cbn [map accepted_prefix List.length].
    assert (Rej : (o = Exit EXIT_FAIL \/ exists t, o = Ret t /\ fst t <> OK) ->
                  exists o' w' evs',
                    (match o with
                     | Ret a =>
                         (let (r, v') := a in
                          bind (if negb (OK =? r)
                                then exitFailure (step_msg s) else ret tt)
                               (fun _ => ret v')) w1
                     | Exit code => (Exit code, w1)
                     end) = (o', w') /\
                    o' = Exit EXIT_FAIL /\ trace w' = trace w ++ evs' /\
                    debugPrint w' = debugPrint w /\
                    forallb exchange_event evs' = true /\ paced evs' = true /\
                    commands evs' = [request (step_cmd s)]).
    { intros [->|([r x] & -> & Hn)].
      - exists (Exit EXIT_FAIL), w1, evs. repeat (split; [assumption || reflexivity|]).
        exact Hc.
      - cbn [fst] in Hn. apply Z.eqb_neq in Hn. rewrite Z.eqb_sym in Hn.
        rewrite Hn. cbn [negb].
        unfold exitFailure, printf, exit, emit, bind, ret, log. cbn.
        do 3 eexists. split; [reflexivity|]. split; [reflexivity|].
        cbn [trace debugPrint]. rewrite Ht, <- app_assoc.
        split; [reflexivity|]. split; [exact Hd|].
        split; [rewrite forallb_app, Hf; reflexivity|].
        split; [apply paced_app; [exact Hp|reflexivity]|].
        rewrite commands_app, Hc. reflexivity. }
    destruct (line w) as [|r0 rs].
    + destruct (Rej Hl) as (o' & w' & evs' & E' & -> & Ht' & Hd' & Hf' & Hp' & Hc').
      exists (Exit EXIT_FAIL), w', evs'. rewrite E'.
      repeat (split; [assumption || reflexivity|]).
      split; [discriminate|reflexivity].
    + destruct (accepted (step_cmd s) r0).
      * destruct Hl as [([r x] & -> & Hn) Hr]. cbn [fst] in Hn. subst r.
        change (negb (OK =? OK)) with false. cbn iota. unfold bind at 1, ret at 1.
        unfold ret at 1.
        destruct (IH x w1) as (o2 & w2 & evs2 & E2 & Ht2 & Hd2 & Hf2 & Hp2 & Hn2).
        rewrite Hr in Hn2. cbn zeta in Hn2. destruct Hn2 as (Hc2 & Hret & Hexit).
        exists o2, w2, (evs ++ evs2). rewrite E2.
        split; [reflexivity|]. split; [rewrite Ht2, Ht, app_assoc; reflexivity|].
        split; [congruence|]. split; [rewrite forallb_app, Hf, Hf2; reflexivity|].
        split; [apply paced_app; assumption|].
        split; [rewrite commands_app, Hc, Hc2; reflexivity|].
        split; [intros Hlen; apply Hret; lia | intros Hlen; apply Hexit; lia].
      * destruct (Rej Hl) as (o' & w' & evs' & E' & -> & Ht' & Hd' & Hf' & Hp' & Hc').
        exists (Exit EXIT_FAIL), w', evs'. rewrite E'.
        repeat (split; [assumption || reflexivity|]).
        split; [discriminate|reflexivity].
Qed.

(** ** [main] *)

Ltac head_of t := lazymatch t with ?g _ => head_of g | _ => t end.

Ltac same_run :=
  repeat first
    [ reflexivity
    | match goal with
      | |- context [let (_, _) := ?a in _] =>
          is_var a; destruct a; cbv beta iota zeta
      | |- context [OK =? ?r] =>
          is_var r; destruct (OK =? r); cbn [negb]; cbv beta iota zeta
      | |- context [match ?X with pair _ _ => _ end] =>
          let h := head_of X in
          is_const h; destruct X as [[?|?] ?]; cbv beta iota zeta
      end ].

(** [case OK:] is the run of its guarded steps. *)
Lemma main_case_OK_steps (v : Vars.t) (w : World) :
  main_case_OK v w = run_steps case_OK_steps v w.
Proof.
  unfold main_case_OK, case_OK_steps, run_steps, guarded, no_output, output.
  cbn [step_run step_msg].
  unfold bind, ret. cbv beta iota zeta.
  same_run.
Qed.

Lemma accepted_prefix_le (cmds : list Command) : forall script,
  (accepted_prefix cmds script <= List.length cmds)%nat.
Proof.
  induction cmds as [|c cmds IH]; intros [|r rs]; cbn [accepted_prefix List.length];
    try lia.
  destruct (accepted c r); [specialize (IH rs)|]; lia.
Qed.

(** Every run of [main], whatever the line delivers. *)
Lemma main_run (v : Vars.t) (debug : bool) (script : list Response) :
  exists o w',
    main v (boot debug script) = (o, w') /\
    let n := accepted_prefix issued_sequence script in
    commands (trace w') = map request (firstn (S n) issued_sequence) /\
    paced (trace w') = true /\
    (n = 14%nat -> o = Exit EXIT_OK) /\
    ((1 <= n < 14)%nat -> o = Exit EXIT_FAIL) /\
    (o = Exit EXIT_FAIL -> forallb exchange_event (trace w') = true) /\
    (exists code, o = Exit code).
Proof.
  pose proof (run_steps_spec case_OK_steps case_OK_steps_exchange) as Spec.
  destruct (checkChannel_exchanges (boot debug script))
    as (o1 & w1 & evs1 & E1 & Ht1 & Hd1 & Hc1 & Hf1 & Hp1 & Hl1).
  cbn [boot trace line app] in Ht1, Hl1.
  unfold main. unfold bind at 1. rewrite E1.
  assert (Rej : (o1 = Exit EXIT_FAIL \/ exists t, o1 = Ret t /\ t <> OK) ->
    exists (o : outcome Z) w',
      match o1 with
      | Ret a =>
          (v0 <- (if a =? OK then main_case_OK v
                  else if a =? CHECK_CHANNEL_TIME_OUT
                       then ret (main_case_TIME_OUT v)
                       else exitFailure "Check channel failure.") ;;
           close ;; tcsetattr ;; emit (EvPrintResults v0) ;; exit EXIT_OK) w1
      | Exit code => (Exit code, w1)
      end = (o, w') /\
      commands (trace w') = [request CmdTest] /\
      paced (trace w') = true /\
      (o = Exit EXIT_FAIL -> forallb exchange_event (trace w') = true) /\
      (exists code, o = Exit code)).
  { intros [->|(t & -> & Hn)].
    - do 2 eexists. split; [reflexivity|]. rewrite Ht1.
      repeat split; try assumption; eauto.
    - apply Z.eqb_neq in Hn. rewrite Hn.
      destruct (t =? CHECK_CHANNEL_TIME_OUT);
        unfold exitFailure, printf, close, tcsetattr, exit, emit, bind, ret, log;
        cbn; do 2 eexists; (split; [reflexivity|]); cbn [trace]; rewrite Ht1;
        rewrite <- ?app_assoc, ?commands_app, ?Hc1;
        (split; [reflexivity|]);
        (split; [apply paced_app; [exact Hp1 | reflexivity]|]);
        (split; [|eauto]).
      + discriminate.
      + intros _. rewrite forallb_app, Hf1. reflexivity. }
  assert (Hseq : issued_sequence = CmdTest :: map step_cmd case_OK_steps)
    by reflexivity.
  assert (Hlen : List.length (map step_cmd case_OK_steps) = 13%nat)
    by reflexivity.
  rewrite Hseq. clear Hseq.
  change (List.length case_OK_steps) with 13%nat in Spec.
  set (rest := map step_cmd case_OK_steps) in *. clearbody rest.
  destruct script as [|r0 rs].
  - destruct (Rej Hl1) as (o & w' & E & Hc & Hp & Hf & Hx).
    exists o, w'. split; [exact E|]. cbn [accepted_prefix]. cbn zeta.
    repeat split; try assumption; try lia.
  - cbn [accepted_prefix]. destruct (accepted CmdTest r0).
    + destruct Hl1 as [(t & -> & ->) Hr].
      change (OK =? OK) with true. cbv iota.
      unfold bind at 1. rewrite main_case_OK_steps.
      destruct (Spec v w1)
        as (o2 & w2 & evs2 & E2 & Ht2 & Hd2 & Hf2 & Hp2 & Hn2).
      rewrite Hr in Hn2. cbn zeta in Hn2.
      pose proof (accepted_prefix_le rest rs) as Hle.
      set (n' := accepted_prefix rest rs) in *.
      destruct Hn2 as (Hc2 & Hret & Hexit).
      rewrite E2.
      destruct (Nat.eq_dec n' 13) as [E13|N13].
      * destruct (Hret E13) as (v' & ->).
        unfold close, tcsetattr, exit, emit, bind, ret, log. cbn.
        do 2 eexists. split; [reflexivity|]. cbn [trace]. cbn zeta.
        rewrite Ht2, Ht1, <- !app_assoc, !commands_app, Hc1, Hc2.
        split; [rewrite app_nil_r; reflexivity|].
        split; [apply paced_app; [exact Hp1|apply paced_app; [exact Hp2|reflexivity]]|].
        split; [reflexivity|]. split; [lia|]. split; [discriminate|eauto].
      * assert (Hlt : (n' < 13)%nat) by lia.
        rewrite (Hexit Hlt).
        do 2 eexists. split; [reflexivity|]. cbn zeta.
        rewrite Ht2, Ht1, !commands_app, Hc1, Hc2.
        split; [reflexivity|].
        split; [apply paced_app; assumption|].
        split; [lia|]. split; [reflexivity|].
        split; [intros _; rewrite forallb_app, Hf1, Hf2; reflexivity | eauto].
    + destruct (Rej Hl1) as (o & w' & E & Hc & Hp & Hf & Hx).
      exists o, w'. split; [exact E|]. cbn zeta.
      repeat split; try assumption; try lia.
Qed.

(** ** The session *)

(** C1, as the code has it.  When the first probe times out, [main]
    issues no further command, releases the port, prints the results and
    exits with EXIT_OK; of the result variables it has set U, I, P and S
    to 0.0, while C, f, A, PR, PY and PT are printed as they were when
    declared: with [stale_vars] the printed cos(f) is 100.0, not 0.0. *)
Theorem main_probe_timeout (v : Vars.t) (debug : bool) (rest : list Response) :
  let run := main v (boot debug (SelectTimeout :: rest)) in
  let printed := main_case_TIME_OUT v in
  fst run = Exit EXIT_OK /\
  commands (trace (snd run)) = [request CmdTest] /\
  (exists t, trace (snd run)
             = t ++ [EvClose; EvTcsetattr; EvPrintResults printed]) /\
  (Vars.U printed = {| P3V.p1 := F0; P3V.p2 := F0; P3V.p3 := F0 |} /\
   Vars.I printed = {| P3V.p1 := F0; P3V.p2 := F0; P3V.p3 := F0 |} /\
   Vars.P printed
     = {| P3VS.sum := F0; P3VS.p1 := F0; P3VS.p2 := F0; P3VS.p3 := F0 |} /\
   Vars.S printed
     = {| P3VS.sum := F0; P3VS.p1 := F0; P3VS.p2 := F0; P3VS.p3 := F0 |}) /\
  (Vars.C printed = Vars.C v /\ Vars.f printed = Vars.f v /\
   Vars.A printed = Vars.A v /\ Vars.PR printed = Vars.PR v /\
   Vars.PY printed = Vars.PY v /\ Vars.PT printed = Vars.PT v) /\
  P3VS.p1 (Vars.C (main_case_TIME_OUT stale_vars)) = F100 /\
  F100 <> F0.
Proof.
  cbv zeta.
  split; [destruct debug; reflexivity|].
  split; [destruct debug; reflexivity|].
  split.
  { destruct debug; eexists.
    - change (trace (snd (main v (boot true (SelectTimeout :: rest)))))
        with ([EvPrintPackage OUT (request CmdTest); EvWrite (request CmdTest);
               EvUsleep TIME_OUT; EvSelect CH_TIME_OUT]
              ++ [EvClose; EvTcsetattr; EvPrintResults (main_case_TIME_OUT v)]).
      reflexivity.
    - change (trace (snd (main v (boot false (SelectTimeout :: rest)))))
        with ([EvWrite (request CmdTest); EvUsleep TIME_OUT; EvSelect CH_TIME_OUT]
              ++ [EvClose; EvTcsetattr; EvPrintResults (main_case_TIME_OUT v)]).
      reflexivity. }
  split; [repeat split|].
  split; [repeat split|].
  split; [reflexivity | discriminate].
Qed.

(** C5, the claim as stated fails: on a line that answers every command
    acceptably the session succeeds, yet the frames written are not the
    sequence with a single probe. *)
Lemma main_probes_twice :
  fst (main stale_vars (boot false healthy_line)) = Exit EXIT_OK /\
  commands (trace (snd (main stale_vars (boot false healthy_line))))
  <> map request single_probe_sequence.
Proof.
  split; [vm_compute; reflexivity|].
  intros H. apply (f_equal (@List.length (list Z))) in H.
  vm_compute in H. discriminate H.
Qed.

(** C5, amended.  With [n] the number of leading commands of probe, probe,
    initialize, voltage, current, power factor, frequency, phase angles,
    active power, reactive power, energy from reset, energy yesterday,
    energy today, terminate that the line answers acceptably: the frames
    written are those of the first [n + 1] commands of that sequence, in
    that order; when all fourteen are accepted they are the whole
    sequence and the exit code is EXIT_OK; when the second probe, the
    initialisation, a query or the termination is not accepted nothing
    is issued after it and the exit code is EXIT_FAIL. *)
Theorem main_command_sequence (v : Vars.t) (debug : bool) (script : list Response) :
  let n := accepted_prefix issued_sequence script in
  let run := main v (boot debug script) in
  commands (trace (snd run)) = map request (firstn (S n) issued_sequence) /\
  (n = 14%nat ->
   fst run = Exit EXIT_OK /\
   commands (trace (snd run)) = map request issued_sequence) /\
  ((1 <= n < 14)%nat -> fst run = Exit EXIT_FAIL).
Proof.
  intros n run.
  destruct (main_run v debug script) as (o & w' & E & Hc & _ & Hok & Hfail & _).
  subst run. rewrite E. cbn [fst snd]. fold n in Hc, Hok, Hfail.
  split; [exact Hc|]. split; [|exact Hfail].
  intros E14. split; [exact (Hok E14)|]. rewrite Hc, E14. reflexivity.
Qed.

Lemma main_command_sequence_witness :
  fst (main stale_vars (boot true healthy_line)) = Exit EXIT_OK /\
  commands (trace (snd (main stale_vars (boot true healthy_line))))
  = map request issued_sequence.
Proof.
  apply (proj1 (proj2 (main_command_sequence stale_vars true healthy_line))).
  vm_compute. reflexivity.
Defined.





(** C7, as the code has it.  In every run each frame written is directly
    followed by [usleep(TIME_OUT)] and then by the [select] that awaits
    the answer; [TIME_OUT] is 50 and [usleep] counts microseconds, so the
    delay is 50 microseconds, not the 50 milliseconds of the comment on
    [TIME_OUT]. *)
Theorem main_pacing (v : Vars.t) (debug : bool) (script : list Response) :
  paced (trace (snd (main v (boot debug script)))) = true /\
  TIME_OUT = 50 /\
  TIME_OUT <> milliseconds 50 /\
  trace (snd (main stale_vars (boot false [])))
  = [EvWrite (request CmdTest); EvUsleep 50; EvSelect CH_TIME_OUT;
     EvClose; EvTcsetattr; EvPrintResults (main_case_TIME_OUT stale_vars)].
Proof.
  destruct (main_run v debug script) as (o & w' & E & _ & Hp & _).
  rewrite E. cbn [snd].
  split; [exact Hp|]. split; [reflexivity|]. split; [discriminate|].
  vm_compute. reflexivity.
Qed.

(** ** Output arguments *)

Ltac unfold_io_in H :=
  unfold nb_read, nb_read_impl, select, read, printPackage, write, usleep,
         exitFailure, printf, exit, emit, bind, ret, log, advance in H.

Ltac keeps_output :=
  let out := fresh "out" in
  let dbg := fresh "dbg" in
  let ln := fresh "ln" in
  let tr := fresh "tr" in
  let d := fresh "d" in
  let rs := fresh "rs" in
  let H := fresh "H" in
  let Hne := fresh "Hne" in
  let E := fresh "E" in
  let H1 := fresh "H1" in
  let H2 := fresh "H2" in
  let H3 := fresh "H3" in
  intros out [dbg ln tr] code out' w' H Hne;
  match type of H with
  | context [ReadParamCmd.bytes ?c] =>
      let frame := fresh "frame" in
      set (frame := ReadParamCmd.bytes c) in H; clearbody frame
  end;
  destruct ln as [|[| |d|] rs]; destruct dbg;
  unfold_io_in H; cbn in H;
  first
    [ discriminate H
    | try (match type of H with
           | context [Z.of_nat ?l =? 0] =>
               destruct (Z.of_nat l =? 0); cbn in H; [discriminate H|]
           end);
      match type of H with
      | context [OK =? ?cr] => destruct (Z.eqb_spec OK cr) as [E|E]
      end;
      cbn in H; injection H as H1 H2 H3;
      [exfalso; apply Hne; congruence | congruence] ].

Lemma getU_writes_only_on_OK : writes_only_on_OK getU.
Proof. unfold getU. keeps_output. Qed.

Lemma getI_writes_only_on_OK : writes_only_on_OK getI.
Proof. unfold getI. keeps_output. Qed.

Lemma getCosF_writes_only_on_OK : writes_only_on_OK getCosF.
Proof. unfold getCosF. keeps_output. Qed.

Lemma getF_writes_only_on_OK : writes_only_on_OK getF.
Proof. unfold getF. keeps_output. Qed.

Lemma getA_writes_only_on_OK : writes_only_on_OK getA.
Proof. unfold getA. keeps_output. Qed.

Lemma getP_writes_only_on_OK : writes_only_on_OK getP.
Proof. unfold getP. keeps_output. Qed.

Lemma getS_writes_only_on_OK : writes_only_on_OK getS.
Proof. unfold getS. keeps_output. Qed.

Lemma getW_writes_only_on_OK (periodId month tariffNo : Z) :
  writes_only_on_OK (fun W => getW W periodId month tariffNo).
Proof. unfold getW. keeps_output. Qed.

(** C9. Each query function (voltage, current, power factor, frequency,
    phase angles, active power, reactive power, energy counters) leaves
    the structure its output pointer designates exactly as it was
    whenever the validation result it returns is not OK. *)
Theorem queries_write_only_on_OK :
  writes_only_on_OK getU /\
  writes_only_on_OK getI /\
  writes_only_on_OK getCosF /\
  writes_only_on_OK getF /\
  writes_only_on_OK getA /\
  writes_only_on_OK getP /\
  writes_only_on_OK getS /\
  (forall periodId month tariffNo,
     writes_only_on_OK (fun W => getW W periodId month tariffNo)).
Proof.
  exact (conj getU_writes_only_on_OK
        (conj getI_writes_only_on_OK
        (conj getCosF_writes_only_on_OK
        (conj getF_writes_only_on_OK
        (conj getA_writes_only_on_OK
        (conj getP_writes_only_on_OK
        (conj getS_writes_only_on_OK getW_writes_only_on_OK))))))).
Qed.

Lemma queries_write_only_on_OK_witness :
  exists code out' w',
    getU (Vars.U stale_vars) (boot false [status_reply OK])
    = (Ret (code, out'), w') /\
    code = WRONG_RESULT_SIZE /\ out' = Vars.U stale_vars.
Proof.
  do 3 eexists. split; [vm_compute; reflexivity|]. split; [reflexivity|].
  eapply (proj1 queries_write_only_on_OK (Vars.U stale_vars)
            (boot false [status_reply OK])).
  - vm_compute. reflexivity.
  - discriminate.
Defined.

(** * Further properties *)

(** ** The checksum: residue and error detection *)

Lemma crc_bytes_app (a b : list Z) (crc : Z) :
  crc_bytes (a ++ b) crc = crc_bytes b (crc_bytes a crc).
Proof.
  revert crc. induction a as [|x a IH]; intros crc; [reflexivity|].
  cbn [app crc_bytes]. apply IH.
Qed.

Lemma lxor_cancel_r (a b k : Z) : Z.lxor a k = Z.lxor b k -> a = b.
Proof.
  intros H. apply (f_equal (fun t => Z.lxor t k)) in H.
  rewrite !Z.lxor_assoc, Z.lxor_nilpotent, !Z.lxor_0_r in H. exact H.
Qed.

Lemma lxor_cancel_l (a b k : Z) : Z.lxor k a = Z.lxor k b -> a = b.
Proof. rewrite !(Z.lxor_comm k). apply lxor_cancel_r. Qed.

Lemma shift_step_top_bit (x : Z) :
  is_uint16 x -> Z.testbit (ChecksumSpec.shift_step x) 15 = Z.testbit x 0.
Proof.
  intros H. unfold ChecksumSpec.shift_step.
  assert (S15 : Z.testbit (Z.shiftr x 1) 15 = false).
  { rewrite Z.shiftr_spec by lia. apply (testbit_above 16); [exact H | lia]. }
  destruct (Z.testbit x 0).
  - rewrite Z.lxor_spec, S15. reflexivity.
  - exact S15.
Qed.

Lemma shiftr1_inj (x y : Z) :
  Z.testbit x 0 = Z.testbit y 0 -> Z.shiftr x 1 = Z.shiftr y 1 -> x = y.
Proof.
  intros H0 H1. apply Z.bits_inj'. intros n Hn.
  destruct (Z.eq_dec n 0) as [->|Hnz]; [exact H0|].
  replace n with (n - 1 + 1) by lia.
  rewrite <- !Z.shiftr_spec by lia. rewrite H1. reflexivity.
Qed.

Lemma shift_step_inj (x y : Z) :
  is_uint16 x -> is_uint16 y ->
  ChecksumSpec.shift_step x = ChecksumSpec.shift_step y -> x = y.
Proof.
  intros Hx Hy E.
  assert (P : Z.testbit x 0 = Z.testbit y 0).
  { rewrite <- (shift_step_top_bit x Hx), <- (shift_step_top_bit y Hy), E.
    reflexivity. }
  apply shiftr1_inj; [exact P|].
  unfold ChecksumSpec.shift_step in E. rewrite <- P in E.
  destruct (Z.testbit x 0); [apply (lxor_cancel_r _ _ _ E) | exact E].
Qed.

Lemma iter_shift_step_uint16 (i : nat) (x : Z) :
  is_uint16 x -> is_uint16 (Nat.iter i ChecksumSpec.shift_step x).
Proof.
  intros H. induction i as [|i IH]; [exact H|].
  cbn [Nat.iter]. apply shift_step_uint16, IH.
Qed.

Lemma crc_bits_inj (i : nat) (x y : Z) :
  is_uint16 x -> is_uint16 y -> crc_bits i x = crc_bits i y -> x = y.
Proof.
  intros Hx Hy.
  rewrite (proj1 (crc_bits_iter i x Hx)), (proj1 (crc_bits_iter i y Hy)).
  induction i as [|i IH]; [trivial|].
  cbn [Nat.iter]. intros E.
  apply IH, shift_step_inj; [apply iter_shift_step_uint16.. | exact E];
    assumption.
Qed.

Lemma xor_byte_uint16 (crc b : Z) :
  is_uint16 crc -> is_byte b ->
  uint16 (Z.lxor crc (uint16 b)) = Z.lxor crc b /\ is_uint16 (Z.lxor crc b).
Proof.
  intros Hc Hb.
  assert (Hb16 : is_uint16 b) by (unfold is_uint16, is_byte in *; lia).
  rewrite (uint16_small b) by exact Hb16.
  assert (Hx : is_uint16 (Z.lxor crc b)).
  { unfold is_uint16 in *. change 65536 with (2 ^ 16). apply lxor_below; lia. }
  split; [apply uint16_small; exact Hx | exact Hx].
Qed.

Lemma crc_step_uint16 (crc b : Z) :
  is_uint16 crc -> is_byte b ->
  is_uint16 (crc_bits 8 (uint16 (Z.lxor crc (uint16 b)))).
Proof.
  intros Hc Hb. destruct (xor_byte_uint16 crc b Hc Hb) as [E R].
  rewrite E. apply crc_bits_iter. exact R.
Qed.

Lemma crc_bytes_uint16 (buf : list Z) (crc : Z) :
  Forall is_byte buf -> is_uint16 crc -> is_uint16 (crc_bytes buf crc).
Proof. intros Hb Hc. apply crc_bytes_fold; assumption. Qed.

(** The loop of [ModRTU_CRC] never merges two accumulators: run over the
    same bytes, different accumulators stay different. *)
Lemma crc_bytes_inj (buf : list Z) : forall x y,
  Forall is_byte buf -> is_uint16 x -> is_uint16 y ->
  crc_bytes buf x = crc_bytes buf y -> x = y.
Proof.
  induction buf as [|b buf IH]; intros x y Hb Hx Hy E; [exact E|].
  inversion Hb as [|? ? Hb1 Hb2]; subst. cbn [crc_bytes] in E.
  apply IH in E; try assumption; try (apply crc_step_uint16; assumption).
  destruct (xor_byte_uint16 x b Hx Hb1) as [Ex Rx].
  destruct (xor_byte_uint16 y b Hy Hb1) as [Ey Ry].
  rewrite Ex, Ey in E. apply crc_bits_inj in E; try assumption.
  apply (lxor_cancel_r _ _ _ E).
Qed.

Lemma crc_bytes_single (a c : list Z) (x y crc : Z) :
  Forall is_byte a -> Forall is_byte c -> is_byte x -> is_byte y ->
  is_uint16 crc -> x <> y ->
  crc_bytes (a ++ x :: c) crc <> crc_bytes (a ++ y :: c) crc.
Proof.
  intros Ha Hc Hx Hy Hcrc Hxy E.
  rewrite !crc_bytes_app in E. cbn [crc_bytes] in E.
  pose proof (crc_bytes_uint16 a crc Ha Hcrc) as Hs.
  apply crc_bytes_inj in E; try assumption;
    try (apply crc_step_uint16; assumption).
  destruct (xor_byte_uint16 _ x Hs Hx) as [Ex Rx].
  destruct (xor_byte_uint16 _ y Hs Hy) as [Ey Ry].
  rewrite Ex, Ey in E. apply crc_bits_inj in E; try assumption.
  apply lxor_cancel_l in E. contradiction.
Qed.

Lemma crc_bits_even (k : nat) : forall h,
  0 <= h -> 2 ^ Z.of_nat k * h < 65536 ->
  crc_bits k (2 ^ Z.of_nat k * h) = h.
Proof.
  induction k as [|k IH]; intros h H0 Hlt.
  - change (2 ^ Z.of_nat 0) with 1. rewrite Z.mul_1_l. reflexivity.
  - rewrite Nat2Z.inj_succ, Z.pow_succ_r in * by lia.
    assert (Hp : 0 < 2 ^ Z.of_nat k) by (apply Z.pow_pos_nonneg; lia).
    cbn [crc_bits]. rewrite low_bit_test.
    replace (2 * 2 ^ Z.of_nat k * h) with (2 * (2 ^ Z.of_nat k * h)) in * by lia.
    rewrite Z.testbit_even_0.
    rewrite Z.shiftr_div_pow2 by lia. change (2 ^ 1) with 2.
    rewrite Z.mul_comm, Z.div_mul by lia.
    rewrite uint16_small by (unfold is_uint16; nia).
    apply IH; [exact H0 | lia].
Qed.

Lemma lxor_low_byte_clears (c : Z) :
  0 <= c -> Z.lxor c (c mod 2 ^ 8) = 2 ^ 8 * (c / 2 ^ 8).
Proof.
  intros Hc. rewrite Z.mul_comm, <- Z.shiftl_mul_pow2 by lia.
  apply Z.bits_inj'. intros n Hn.
  rewrite Z.lxor_spec.
  destruct (Z_lt_le_dec n 8) as [L|L].
  - rewrite Z.mod_pow2_bits_low, Z.shiftl_spec_low by lia.
    apply xorb_nilpotent.
  - rewrite Z.mod_pow2_bits_high, Z.shiftl_spec by lia.
    rewrite xorb_false_r, Z.div_pow2_bits by lia.
    f_equal. lia.
Qed.

(** The checksum of a 16-bit accumulator's own two bytes, low byte first,
    taken from that accumulator, is zero. *)
Lemma crc_bytes_own_bytes (c : Z) :
  is_uint16 c -> crc_bytes (store_UInt16 c) c = 0.
Proof.
  intros Hc. unfold is_uint16 in Hc.
  assert (Hhi : 0 <= c / 2 ^ 8 < 256).
  { change (2 ^ 8) with 256.
    split; [apply Z.div_pos; lia | apply Z.div_lt_upper_bound; lia]. }
  assert (Hlo : 0 <= c mod 2 ^ 8 < 256) by (apply Z.mod_pos_bound; reflexivity).
  unfold store_UInt16, uint8. cbn [crc_bytes].
  rewrite Z.shiftr_div_pow2 by lia.
  rewrite (Z.mod_small (c / 2 ^ 8)) by (change (2 ^ 8) with 256 in *; lia).
  rewrite (uint16_small (c mod 2 ^ 8)) by (unfold is_uint16; lia).
  rewrite (uint16_small (c / 2 ^ 8)) by (unfold is_uint16; lia).
  rewrite lxor_low_byte_clears by lia.
  rewrite (uint16_small (2 ^ 8 * (c / 2 ^ 8)))
    by (unfold is_uint16; change (2 ^ 8) with 256 in *; lia).
  pose proof (crc_bits_even 8 (c / 2 ^ 8)) as Hev.
  change (Z.of_nat 8) with 8 in Hev.
  rewrite Hev by (change (2 ^ 8) with 256 in *; lia).
  rewrite Z.lxor_nilpotent. reflexivity.
Qed.

(** X1. Run over a whole frame, the checksum field included, the checksum
    is zero: a frame is a body of bytes followed by the checksum of the
    body, low byte first, so a receiver can validate a frame in one
    pass. *)
Theorem ModRTU_CRC_residue (body : list Z) :
  Forall is_byte body ->
  ModRTU_CRC (framed body) (Z.of_nat (List.length (framed body))) = 0.
Proof.
  intros Hb. unfold framed, ModRTU_CRC.
  rewrite !Nat2Z.id, !firstn_all, crc_bytes_app.
  apply crc_bytes_own_bytes.
  apply crc_bytes_uint16; [exact Hb | unfold is_uint16; lia].
Qed.

Lemma ModRTU_CRC_residue_witness :
  ModRTU_CRC (framed [PM_ADDRESS; ILLEGAL_CMD])
             (Z.of_nat (List.length (framed [PM_ADDRESS; ILLEGAL_CMD]))) = 0.
Proof.
  apply (ModRTU_CRC_residue [PM_ADDRESS; ILLEGAL_CMD]).
  apply Forall_cons; [unfold is_byte, PM_ADDRESS; lia|].
  apply Forall_cons; [unfold is_byte, ILLEGAL_CMD; lia|].
  apply Forall_nil.
Defined.

(** X2. Two buffers of bytes of the same length that differ in exactly
    one byte never have the same checksum. *)
Theorem ModRTU_CRC_detects_single_byte (a c : list Z) (x y : Z) :
  Forall is_byte a -> Forall is_byte c -> is_byte x -> is_byte y ->
  x <> y ->
  ModRTU_CRC (a ++ x :: c) (Z.of_nat (List.length (a ++ x :: c)))
  <> ModRTU_CRC (a ++ y :: c) (Z.of_nat (List.length (a ++ y :: c))).
Proof.
  intros Ha Hc Hx Hy Hxy. unfold ModRTU_CRC.
  rewrite !Nat2Z.id, !firstn_all.
  apply crc_bytes_single; try assumption. unfold is_uint16. lia.
Qed.

Lemma ModRTU_CRC_detects_single_byte_witness :
  ModRTU_CRC ([0x00] ++ 0x00 :: []) (Z.of_nat (List.length ([0x00] ++ 0x00 :: [])))
  <> ModRTU_CRC ([0x00] ++ 0x01 :: []) (Z.of_nat (List.length ([0x00] ++ 0x01 :: []))).
Proof.
  apply (ModRTU_CRC_detects_single_byte [0x00] [] 0x00 0x01);
    repeat constructor; unfold is_byte; try lia.
Defined.

(** ** The validators: what they accept and what they reject *)

Lemma checkResult_of_cascade (s : Shape) (buf : list Z) (len : Z) :
  checkResult_of s buf len
  = if negb (len =? shape_size s) then WRONG_RESULT_SIZE
    else if negb (ModRTU_CRC buf (len - sizeof_UInt16)
                  =? load_UInt16 buf (Z.to_nat (shape_size s) - 2))
         then WRONG_CRC
         else match s with
              | Shape_1b => Z.land (at_ buf 1) 0x0F
              | _ => OK
              end.
Proof. destruct s; reflexivity. Qed.

Lemma shape_size_ge_4 (s : Shape) : 4 <= shape_size s.
Proof. destruct s; cbv; discriminate. Qed.

Lemma nth_is_byte (l : list Z) (i : nat) : Forall is_byte l -> is_byte (nth i l 0).
Proof.
  intros H. revert i. induction H as [|x l Hx Hl IH]; intros [|i]; cbn [nth];
    try assumption; try apply IH; unfold is_byte; lia.
Qed.

Lemma load_UInt16_value (buf : list Z) (off : nat) :
  Forall is_byte buf ->
  load_UInt16 buf off = at_ buf (S off) * 256 + at_ buf off.
Proof.
  intros H. unfold load_UInt16. rewrite Z.lor_comm.
  rewrite lor_shiftl_low; [reflexivity | lia |].
  apply (nth_is_byte buf off H).
Qed.

(** X4. A frame made of a body of bytes followed by the checksum of that
    body, of the length the expected shape has, passes the validator: the
    answer is OK for the multi-byte shapes and the low four bits of the
    status byte for the 1-byte shape (the high four bits are ignored). *)
Theorem checkResult_accepts_framed (s : Shape) (body : list Z) :
  Forall is_byte body ->
  Z.of_nat (List.length body) + 2 = shape_size s ->
  checkResult_of s (framed body) (Z.of_nat (List.length (framed body)))
  = match s with
    | Shape_1b => Z.land (at_ body 1) 0x0F
    | _ => OK
    end.
Proof.
  intros Hb Hlen.
  pose proof (checksum_appended body [] Hb) as Hc. cbv zeta in Hc.
  rewrite app_nil_r in Hc. fold (framed body) in Hc.
  assert (Hl : Z.of_nat (List.length (framed body)) = shape_size s).
  { unfold framed, store_UInt16. rewrite length_app. cbn [List.length]. lia. }
  rewrite checkResult_of_cascade, Hl, Z.eqb_refl. cbn [negb].
  rewrite <- Hl at 1. rewrite Hc.
  rewrite (embedded_crc_at (framed body) (Z.to_nat (shape_size s) - 2))
    by (pose proof (shape_size_ge_4 s); lia).
  rewrite Z.eqb_refl. cbn [negb].
  destruct s; try reflexivity.
  unfold at_, framed. rewrite app_nth1; [reflexivity|].
  cbn [shape_size] in Hlen. unfold Result_1b.sizeof in Hlen. lia.
Qed.

Lemma checkResult_accepts_framed_witness :
  checkResult_of Shape_1b (framed [0x00; 0x10])
                 (Z.of_nat (List.length (framed [0x00; 0x10])))
  = Z.land (at_ [0x00; 0x10] 1) 0x0F.
Proof.
  apply (checkResult_accepts_framed Shape_1b [0x00; 0x10]).
  - repeat constructor; unfold is_byte; lia.
  - reflexivity.
Defined.

(** X3. If the validator passes a buffer of bytes (neither size nor
    checksum error), it answers WRONG_CRC on every buffer that differs
    from it in exactly one byte, wherever that byte lies. *)
Theorem checkResult_rejects_single_byte (s : Shape) (a c : list Z) (x y : Z) :
  Forall is_byte a -> Forall is_byte c -> is_byte x -> is_byte y ->
  x <> y ->
  let len := Z.of_nat (List.length (a ++ x :: c)) in
  checkResult_of s (a ++ x :: c) len <> WRONG_RESULT_SIZE ->
  checkResult_of s (a ++ x :: c) len <> WRONG_CRC ->
  checkResult_of s (a ++ y :: c) len = WRONG_CRC.
Proof.
  intros Ha Hc Hx Hy Hxy len Hsz Hcrc.
  rewrite checkResult_of_cascade in Hsz, Hcrc. rewrite checkResult_of_cascade.
  destruct (Z.eqb_spec len (shape_size s)) as [El|El]; cbn [negb] in *;
    [|congruence].
  clear Hsz.
  pose proof (shape_size_ge_4 s) as H4.
  set (n := (Z.to_nat (shape_size s) - 2)%nat) in *.
  assert (Hn : (List.length a + 1 + List.length c = n + 2)%nat).
  { subst len n. rewrite length_app in El. cbn [List.length] in El. lia. }
  assert (E2 : len - sizeof_UInt16 = Z.of_nat n)
    by (subst n; unfold sizeof_UInt16; lia).
  rewrite E2 in *.
  destruct (Z.eqb_spec (ModRTU_CRC (a ++ x :: c) (Z.of_nat n))
                       (load_UInt16 (a ++ x :: c) n)) as [Ec|Ec];
    cbn [negb] in Hcrc; [|congruence].
  clear Hcrc.
  assert (Bx : Forall is_byte (a ++ x :: c))
    by (apply Forall_app; split; [|constructor]; assumption).
  assert (By : Forall is_byte (a ++ y :: c))
    by (apply Forall_app; split; [|constructor]; assumption).
  rewrite (load_UInt16_value _ _ Bx) in Ec.
  rewrite (load_UInt16_value _ _ By).
  unfold ModRTU_CRC in *. rewrite Nat2Z.id in *.
  unfold at_ in *.
  assert (G : crc_bytes (firstn n (a ++ y :: c)) 0xFFFF
              <> nth (S n) (a ++ y :: c) 0 * 256 + nth n (a ++ y :: c) 0).
  { destruct (Nat.lt_ge_cases (List.length a) n) as [L|L].
    - (* the changed byte is covered by the checksum *)
      destruct (n - List.length a)%nat as [|k] eqn:Ek; [lia|].
      assert (Ek' : (S n - List.length a = S (S k))%nat) by lia.
      assert (F : forall z, firstn n (a ++ z :: c) = a ++ z :: firstn k c).
      { intros z. rewrite firstn_app, (firstn_all2 (n := n) a), Ek by lia.
        rewrite firstn_cons. reflexivity. }
      assert (N0 : forall z, nth n (a ++ z :: c) 0 = nth k c 0).
      { intros z. rewrite app_nth2, Ek by lia. reflexivity. }
      assert (N1 : forall z, nth (S n) (a ++ z :: c) 0 = nth (S k) c 0).
      { intros z. rewrite app_nth2, Ek' by lia. reflexivity. }
      rewrite F, N0, N1 in *. rewrite <- Ec.
      apply not_eq_sym, crc_bytes_single; try assumption.
      + apply Forall_firstn. exact Hc.
      + unfold is_uint16. lia.
    - (* the changed byte is one of the two checksum bytes *)
      assert (F : firstn n (a ++ y :: c) = firstn n (a ++ x :: c)).
      { rewrite !firstn_app.
        replace (n - List.length a)%nat with 0%nat by lia. reflexivity. }
      rewrite F, Ec.
      destruct (Nat.eq_dec (List.length a) n) as [En|En].
      + rewrite !(app_nth2 a) by lia.
        replace (S n - List.length a)%nat with 1%nat by lia.
        replace (n - List.length a)%nat with 0%nat by lia.
        cbn [nth]. lia.
      + assert (En' : List.length a = S n) by lia.
        assert (N0 : forall z, nth n (a ++ z :: c) 0 = nth n a 0)
          by (intros z; apply app_nth1; lia).
        assert (N1 : forall z, nth (S n) (a ++ z :: c) 0 = z).
        { intros z. rewrite app_nth2 by lia.
          replace (S n - List.length a)%nat with 0%nat by lia. reflexivity. }
        rewrite !N0, !N1. lia. }
  apply Z.eqb_neq in G. rewrite G. reflexivity.
Qed.

Lemma checkResult_rejects_single_byte_witness :
  checkResult_of Shape_1b ([0x00] ++ 0x01 :: [0x01; 0xB0])
                 (Z.of_nat (List.length ([0x00] ++ 0x00 :: [0x01; 0xB0])))
  = WRONG_CRC.
Proof.
  apply (checkResult_rejects_single_byte Shape_1b [0x00] [0x01; 0xB0] 0x00 0x01);
    try (repeat constructor; unfold is_byte; lia);
    try lia; vm_compute; discriminate.
Defined.

(** ** The decoders: exactness of the integer conversion *)

Lemma digits2_pos_iter_xO (p k : positive) :
  Zpos (digits2_pos (Pos.iter xO p k)) = Zpos (digits2_pos p) + Zpos k.
Proof.
  induction k as [|k IH] using Pos.peano_ind.
  - cbn [Pos.iter digits2_pos]. lia.
  - rewrite Pos.iter_succ. cbn [digits2_pos]. rewrite Pos2Z.inj_succ, IH. lia.
Qed.

(** Rounding a number that already is a binary32 number changes nothing. *)
Lemma binary_round_aux_canonical (s : bool) (m : positive) (e : Z) :
  bounded 24 128 m e = true ->
  binary_round_aux 24 128 s (Zpos m) e loc_Exact = S754_finite s m e.
Proof.
  unfold bounded, canonical_mantissa. intros H.
  apply andb_true_iff in H. destruct H as [H1 H2]. apply Z.eqb_eq in H1.
  unfold binary_round_aux, shr_fexp. cbn [Zdigits2 shr_record_of_loc].
  rewrite H1, Z.sub_diag. cbn [shr shr_m loc_of_shr_record round_nearest_even].
  cbn [Zdigits2 shr_record_of_loc].
  rewrite H1, Z.sub_diag. cbn [shr shr_m]. rewrite H2. reflexivity.
Qed.

Lemma float_of_int_24bit (v : Z) :
  0 < v < 2 ^ 24 ->
  exists m e, float_of_int v = S754_finite false m e /\
              bounded 24 128 m e = true /\ e <= 0 /\
              Zpos m = v * 2 ^ (- e).
Proof.
  intros Hv. destruct v as [|p|p]; try lia.
  pose proof (digits2_pos_bounds p) as [D1 D2].
  assert (Hd : Zpos (digits2_pos p) <= 24).
  { destruct (Z_le_gt_dec (Zpos (digits2_pos p)) 24) as [L|G]; [exact L|].
    exfalso. pose proof (pow2_le 24 (Zpos (digits2_pos p) - 1)). lia. }
  unfold float_of_int, binary_normalize, binary_round, shl_align, fexp, emin.
  rewrite Z.add_0_r, Z.sub_0_r.
  replace (Z.max (Zpos (digits2_pos p) - 24) (3 - 128 - 24))
    with (Zpos (digits2_pos p) - 24) by lia.
  destruct (Zpos (digits2_pos p) - 24) as [|k|k] eqn:Ek; try lia.
  - exists p, 0. split; [apply binary_round_aux_canonical|].
    + unfold bounded, canonical_mantissa, fexp, emin.
      apply andb_true_iff. split; [apply Z.eqb_eq; lia | reflexivity].
    + split.
      * unfold bounded, canonical_mantissa, fexp, emin.
        apply andb_true_iff. split; [apply Z.eqb_eq; lia | reflexivity].
      * split; [lia|]. change (2 ^ (- 0)) with 1. lia.
  - assert (B : bounded 24 128 (Pos.iter xO p k) (Zneg k) = true).
    { unfold bounded, canonical_mantissa, fexp, emin.
      rewrite digits2_pos_iter_xO.
      apply andb_true_iff. split; [apply Z.eqb_eq; lia | apply Z.leb_le; lia]. }
    exists (Pos.iter xO p k), (Zneg k).
    split; [apply binary_round_aux_canonical; exact B|].
    split; [exact B|]. split; [lia|].
    rewrite iter_xO_pow2. reflexivity.
Qed.

(** X5. The integer [B3F] packs from three bytes is below 2^24, so its
    conversion to [float] is exact: [B3F] divides by the scale a float
    that denotes the packed integer itself.  [B4F] has no such margin:
    the integer it packs from [{1,2,3,4}] is rounded by the conversion. *)
Theorem B3F_converts_exactly (b0 b1 b2 : Z) (factor : float) :
  is_byte b0 -> is_byte b1 -> is_byte b2 ->
  (exists x, B3F [b0; b1; b2] factor = float_div x factor /\
             valid_binary 24 128 x = true /\
             represents x (b0 * 65536 + b2 * 256 + b1)) /\
  (B4F [0x01; 0x02; 0x03; 0x04] factor
     = float_div (float_of_int 33620995) factor /\
   ~ represents (float_of_int 33620995) 33620995).
Proof.
  intros H0 H1 H2. split.
  - exists (float_of_int (b0 * 65536 + b2 * 256 + b1)).
    split; [apply B3F_value; assumption|].
    destruct (Z.eq_dec (b0 * 65536 + b2 * 256 + b1) 0) as [E|E].
    + rewrite E. split; reflexivity.
    + destruct (float_of_int_24bit (b0 * 65536 + b2 * 256 + b1))
        as (m & e & Ef & Hb & He & Hm); [unfold is_byte in *; lia|].
      rewrite Ef. split; [exact Hb|]. cbn [represents].
      destruct (Z.leb_spec 0 e) as [L|L]; [|exact Hm].
      assert (e = 0) by lia. subst e. change (2 ^ (- 0)) with 1 in Hm.
      change (2 ^ 0) with 1. lia.
  - split; [reflexivity|]. vm_compute. discriminate.
Qed.

Lemma B3F_converts_exactly_witness :
  exists x, B3F [0xFF; 0xFF; 0xFF] F100 = float_div x F100 /\
            valid_binary 24 128 x = true /\
            represents x (0xFF * 65536 + 0xFF * 256 + 0xFF).
Proof.
  apply (proj1 (B3F_converts_exactly 0xFF 0xFF 0xFF F100
                  ltac:(unfold is_byte; lia) ltac:(unfold is_byte; lia)
                  ltac:(unfold is_byte; lia))).
Defined.

(** ** The probe, the waits and the exit code *)

Lemma checkResult_1b_codes (d : list Z) (len : Z) :
  checkResult_1b d len <> CHECK_CHANNEL_TIME_OUT.
Proof.
  unfold checkResult_1b.
  pose proof (land_0x0F_range (Result_1b.result (Result_1b.overlay d))) as R.
  destruct (negb (len =? Result_1b.sizeof)); [discriminate|].
  destruct (negb _); [discriminate|].
  unfold CHECK_CHANNEL_TIME_OUT. lia.
Qed.

(** What [checkChannel] answers, by what the line delivers. *)
Lemma checkChannel_answer (w : World) :
  fst (checkChannel w)
  = match line w with
    | [] => Ret CHECK_CHANNEL_TIME_OUT
    | SelectError :: _ => Exit EXIT_FAIL
    | SelectTimeout :: _ => Ret CHECK_CHANNEL_TIME_OUT
    | ReadData d :: _ =>
        if Z.of_nat (List.length d) =? 0 then Ret CHECK_CHANNEL_TIME_OUT
        else Ret (checkResult_1b d (Z.of_nat (List.length d)))
    | ReadError :: _ => Ret (checkResult_1b [] (-1))
    end.
Proof.
  destruct w as [dbg ln tr]. unfold checkChannel.
  destruct ln as [|[| |d|] rs]; destruct dbg; unfold_io; cbn;
    try reflexivity;
    destruct (Z.of_nat (List.length d) =? 0); reflexivity.
Qed.

Lemma silent_length (r : Response) (rs : list Response) :
  silent (r :: rs) = true ->
  r = SelectTimeout \/ r = ReadData [].
Proof.
  destruct r as [| |[|x d]|]; cbn [silent]; intros H;
    try discriminate; auto.
Qed.

(** X6. [checkChannel] answers CHECK_CHANNEL_TIME_OUT exactly on a silent
    line (a [select] timeout or a [read] of no byte) and ends the process
    only when [select] fails; on the same silent line [initConnection],
    [closeConnection] and the queries do not return: they end the process
    with EXIT_FAIL. *)
Theorem probe_survives_silence (w : World) :
  (fst (checkChannel w) = Ret CHECK_CHANNEL_TIME_OUT <-> silent (line w) = true) /\
  ((exists code, fst (checkChannel w) = Exit code)
   <-> exists rs, line w = SelectError :: rs) /\
  (silent (line w) = true ->
   fst (initConnection w) = Exit EXIT_FAIL /\
   fst (closeConnection w) = Exit EXIT_FAIL /\
   (forall U, fst (getU U w) = Exit EXIT_FAIL) /\
   (forall I, fst (getI I w) = Exit EXIT_FAIL) /\
   (forall C, fst (getCosF C w) = Exit EXIT_FAIL) /\
   (forall f, fst (getF f w) = Exit EXIT_FAIL) /\
   (forall A, fst (getA A w) = Exit EXIT_FAIL) /\
   (forall P, fst (getP P w) = Exit EXIT_FAIL) /\
   (forall S, fst (getS S w) = Exit EXIT_FAIL) /\
   (forall W periodId month tariffNo,
      fst (getW W periodId month tariffNo w) = Exit EXIT_FAIL)).
Proof.
  split; [|split].
  - rewrite checkChannel_answer.
    destruct (line w) as [|[| |[|x d]|] rs]; cbn [silent];
      try (split; [discriminate | discriminate]);
      try (split; reflexivity).
    split; [intros H|discriminate].
    replace (Z.of_nat (List.length (x :: d)) =? 0) with false in H
      by (symmetry; apply Z.eqb_neq; cbn [List.length]; lia).
    inversion H as [H']. apply checkResult_1b_codes in H'. contradiction.
  - rewrite checkChannel_answer.
    destruct (line w) as [|[| |d|] rs];
      try (split; [intros [c H]; discriminate H | intros [rs' H]; discriminate H]).
    + split; eauto.
    + split; [intros [c H]|intros [rs' H]; discriminate H].
      destruct (Z.of_nat (List.length d) =? 0); discriminate H.
  - intros Hs. destruct w as [dbg ln tr]. cbn [line] in Hs.
    destruct ln as [|r rs].
    + repeat split; intros; destruct dbg; reflexivity.
    + destruct (silent_length r rs Hs) as [-> | ->];
        repeat split; intros; destruct dbg; reflexivity.
Qed.

Lemma main_after_probe (v : Vars.t) (w : World) :
  (forall code, fst (checkChannel w) = Exit code -> fst (main v w) = Exit code) /\
  (forall r, fst (checkChannel w) = Ret r -> r <> OK ->
             fst (main v w)
             = Exit (if r =? CHECK_CHANNEL_TIME_OUT then EXIT_OK else EXIT_FAIL)).
Proof.
  split.
  - intros code E. unfold main. unfold bind at 1.
    destruct (checkChannel w) as [[r|c] w1]; cbn [fst] in E |- *;
      [discriminate E | exact E].
  - intros r E Hn. unfold main. unfold bind at 1.
    destruct (checkChannel w) as [[r'|c] w1]; cbn [fst] in E;
      [injection E as -> | discriminate E].
    apply Z.eqb_neq in Hn. rewrite Hn.
    destruct (r =? CHECK_CHANNEL_TIME_OUT); reflexivity.
Qed.

(** X7. The exit code of [main]: EXIT_OK exactly when all fourteen
    commands are answered acceptably or the first probe meets a silent
    line; EXIT_FAIL in every other case. *)
Theorem main_exit_code (v : Vars.t) (debug : bool) (script : list Response) :
  fst (main v (boot debug script))
  = Exit (if (accepted_prefix issued_sequence script =? 14)%nat || silent script
          then EXIT_OK else EXIT_FAIL).
Proof.
  destruct (main_run v debug script) as (o & w' & E & _ & _ & Hok & Hfail & _).
  cbv zeta in Hok, Hfail.
  pose proof (accepted_prefix_le issued_sequence script) as Hle.
  change (List.length issued_sequence) with 14%nat in Hle.
  destruct (Nat.eqb_spec (accepted_prefix issued_sequence script) 14) as [E14|N14].
  { rewrite E, (Hok E14). reflexivity. }
  cbn [orb].
  destruct (Nat.eq_dec (accepted_prefix issued_sequence script) 0) as [E0|N0].
  2:{ assert (Hs : silent script = false).
      { destruct script as [|[| |[|x d]|] rs]; try reflexivity;
          exfalso; apply N0; reflexivity. }
      rewrite Hs, E, Hfail by lia. reflexivity. }
  clear E Hok Hfail.
  destruct (main_after_probe v (boot debug script)) as [Hexit Hret].
  pose proof (checkChannel_answer (boot debug script)) as A. cbn [boot line] in A.
  destruct script as [|[| |d|] rs]; cbn [silent].
  - rewrite (Hret _ A); [reflexivity | discriminate].
  - rewrite (Hexit _ A). reflexivity.
  - rewrite (Hret _ A); [reflexivity | discriminate].
  - unfold issued_sequence in E0. cbn [accepted_prefix] in E0.
    destruct (accepted CmdTest (ReadData d)) eqn:Acc; [discriminate|].
    unfold accepted in Acc. cbn [shape_of checkResult_of] in Acc.
    apply Z.eqb_neq in Acc.
    destruct d as [|x d].
    + rewrite (Hret _ A); [reflexivity | discriminate].
    + replace (Z.of_nat (List.length (x :: d)) =? 0) with false in A
        by (symmetry; apply Z.eqb_neq; cbn [List.length]; lia).
      rewrite (Hret _ A Acc).
      pose proof (checkResult_1b_codes (x :: d) (Z.of_nat (List.length (x :: d)))) as C.
      apply Z.eqb_neq in C. rewrite C. reflexivity.
  - rewrite (Hret _ A); [reflexivity | vm_compute; discriminate].
Qed.

(** ** Release of the port *)

Lemma checkChannel_events (w : World) :
  exists evs,
    trace (snd (checkChannel w)) = trace w ++ evs /\
    forallb exchange_event evs = true /\
    (forall code, fst (checkChannel w) = Exit code -> code = EXIT_FAIL).
Proof.
  destruct (checkChannel_exchanges w)
    as (o & w' & evs & E & Ht & _ & _ & Hf & _ & Hl).
  exists evs. rewrite E. cbn [fst snd]. split; [exact Ht|]. split; [exact Hf|].
  intros code ->.
  destruct (line w) as [|r0 rs]; [|destruct (accepted CmdTest r0)];
    try (destruct Hl as [Hl|(t & Hl & _)]; [congruence|discriminate]).
  destruct Hl as [(t & Hl & _) _]. discriminate.
Qed.

Lemma main_case_OK_events (v : Vars.t) (w : World) :
  exists evs,
    trace (snd (main_case_OK v w)) = trace w ++ evs /\
    forallb exchange_event evs = true /\
    ((exists v', fst (main_case_OK v w) = Ret v') \/
     fst (main_case_OK v w) = Exit EXIT_FAIL).
Proof.
  rewrite main_case_OK_steps.
  destruct (run_steps_spec case_OK_steps case_OK_steps_exchange v w)
    as (o & w' & evs & E & Ht & _ & Hf & _ & Hn).
  cbv zeta in Hn. destruct Hn as (_ & Hret & Hexit).
  pose proof (accepted_prefix_le (map step_cmd case_OK_steps) (line w)) as Hle.
  rewrite length_map in Hle.
  exists evs. rewrite E. cbn [fst snd]. split; [exact Ht|]. split; [exact Hf|].
  destruct (Nat.eq_dec (accepted_prefix (map step_cmd case_OK_steps) (line w))
                       (List.length case_OK_steps)) as [Eq|Ne].
  - left. apply Hret, Eq.
  - right. apply Hexit. lia.
Qed.

(** X8. From the [switch] on, [main] calls [close] exactly when it ends
    with EXIT_OK, and then exactly once, as the third call from the end:
    what follows it is the [tcsetattr] that restores the port settings
    (on the descriptor just closed) and the printing of the results.  A
    run that ends with EXIT_FAIL calls neither [close] nor [tcsetattr]
    and prints no results. *)
Theorem main_release (v : Vars.t) (debug : bool) (script : list Response) :
  let run := main v (boot debug script) in
  (fst run = Exit EXIT_OK /\
   exists t printed,
     trace (snd run) = t ++ [EvClose; EvTcsetattr; EvPrintResults printed] /\
     forallb exchange_event t = true) \/
  (fst run = Exit EXIT_FAIL /\ forallb exchange_event (trace (snd run)) = true).
Proof.
  cbv zeta.
  destruct (checkChannel_events (boot debug script)) as (evs1 & Ht1 & Hf1 & Hc1).
  cbn [boot trace app] in Ht1.
  destruct (main v (boot debug script)) as [o w'] eqn:Em. cbn [fst snd].
  unfold main in Em. unfold bind at 1 in Em.
  destruct (checkChannel (boot debug script)) as [[r|code] w1];
    cbn [fst snd] in *.
  2:{ right. injection Em as <- <-. rewrite Ht1, (Hc1 code eq_refl).
      split; [reflexivity | exact Hf1]. }
  clear Hc1.
  destruct (r =? OK).
  - unfold bind at 1 in Em.
    destruct (main_case_OK_events v w1) as (evs2 & Ht2 & Hf2 & Ho).
    destruct (main_case_OK v w1) as [[v'|code] w2]; cbn [fst snd] in *.
    + left. unfold close, tcsetattr, exit, emit, bind, ret, log in Em.
      cbn [fst snd trace debugPrint line] in Em. injection Em as <- <-.
      split; [reflexivity|]. exists (evs1 ++ evs2), v'.
      cbn [trace]. rewrite Ht2, Ht1, <- !app_assoc.
      split; [reflexivity|]. rewrite forallb_app, Hf1, Hf2. reflexivity.
    + right. destruct Ho as [[v' Ho]|Ho]; [discriminate|].
      injection Ho as ->. injection Em as <- <-. rewrite Ht2, Ht1.
      split; [reflexivity|]. rewrite forallb_app, Hf1, Hf2. reflexivity.
  - destruct (r =? CHECK_CHANNEL_TIME_OUT);
      unfold exitFailure, printf, close, tcsetattr, exit, emit, bind, ret, log in Em;
      cbn [fst snd trace debugPrint line] in Em; injection Em as <- <-;
      cbn [trace]; rewrite Ht1.
    + left. split; [reflexivity|]. do 2 eexists. split; [|exact Hf1].
      rewrite <- !app_assoc. reflexivity.
    + right. split; [reflexivity|]. rewrite forallb_app, Hf1. reflexivity.
Qed.

(** ** The results of a successful session *)

Ltac hide_frame :=
  try match goal with
      | |- context [ReadParamCmd.bytes ?c] =>
          let frame := fresh "frame" in
          set (frame := ReadParamCmd.bytes c); clearbody frame
      end.

Ltac accepted_value shape :=
  let dbg := fresh "dbg" in
  let ln := fresh "ln" in
  let tr := fresh "tr" in
  let d := fresh "d" in
  let rs := fresh "rs" in
  let Hl := fresh "Hl" in
  let Hok := fresh "Hok" in
  let Hsz := fresh "Hsz" in
  intros [dbg ln tr] d rs Hl Hok; cbn [line] in Hl; subst ln;
  pose proof (checkResult_of_OK_size shape d _ Hok) as Hsz;
  cbn [checkResult_of shape_size] in Hsz, Hok;
  hide_frame;
  destruct dbg; unfold_io; cbn; rewrite Hsz in *; cbn;
  rewrite ?Hok, ?Z.eqb_refl; reflexivity.

Lemma checkChannel_accepted : forall w d rs,
  line w = ReadData d :: rs ->
  checkResult_of Shape_1b d (Z.of_nat (List.length d)) = OK ->
  fst (checkChannel w) = Ret OK.
Proof. unfold checkChannel. accepted_value Shape_1b. Qed.

Lemma initConnection_accepted : forall w d rs,
  line w = ReadData d :: rs ->
  checkResult_of Shape_1b d (Z.of_nat (List.length d)) = OK ->
  fst (initConnection w) = Ret OK.
Proof. unfold initConnection. accepted_value Shape_1b. Qed.

Lemma closeConnection_accepted : forall w d rs,
  line w = ReadData d :: rs ->
  checkResult_of Shape_1b d (Z.of_nat (List.length d)) = OK ->
  fst (closeConnection w) = Ret OK.
Proof. unfold closeConnection. accepted_value Shape_1b. Qed.

Lemma getU_accepted U : forall w d rs,
  line w = ReadData d :: rs ->
  checkResult_of Shape_3x3b d (Z.of_nat (List.length d)) = OK ->
  fst (getU U w) = Ret (OK, decode_3x3b d F100).
Proof. unfold getU. accepted_value Shape_3x3b. Qed.

Lemma getI_accepted I : forall w d rs,
  line w = ReadData d :: rs ->
  checkResult_of Shape_3x3b d (Z.of_nat (List.length d)) = OK ->
  fst (getI I w) = Ret (OK, decode_3x3b d F1000).
Proof. unfold getI. accepted_value Shape_3x3b. Qed.

Lemma getCosF_accepted C : forall w d rs,
  line w = ReadData d :: rs ->
  checkResult_of Shape_4x3b d (Z.of_nat (List.length d)) = OK ->
  fst (getCosF C w) = Ret (OK, decode_4x3b d F1000).
Proof. unfold getCosF. accepted_value Shape_4x3b. Qed.

Lemma getF_accepted f : forall w d rs,
  line w = ReadData d :: rs ->
  checkResult_of Shape_3b d (Z.of_nat (List.length d)) = OK ->
  fst (getF f w) = Ret (OK, B3F (Result_3b.res (Result_3b.overlay d)) F100).
Proof. unfold getF. accepted_value Shape_3b. Qed.

Lemma getA_accepted A : forall w d rs,
  line w = ReadData d :: rs ->
  checkResult_of Shape_3x3b d (Z.of_nat (List.length d)) = OK ->
  fst (getA A w) = Ret (OK, decode_3x3b d F100).
Proof. unfold getA. accepted_value Shape_3x3b. Qed.

Lemma getP_accepted P : forall w d rs,
  line w = ReadData d :: rs ->
  checkResult_of Shape_4x3b d (Z.of_nat (List.length d)) = OK ->
  fst (getP P w) = Ret (OK, decode_4x3b d F1000).
Proof. unfold getP. accepted_value Shape_4x3b. Qed.

Lemma getS_accepted S : forall w d rs,
  line w = ReadData d :: rs ->
  checkResult_of Shape_4x3b d (Z.of_nat (List.length d)) = OK ->
  fst (getS S w) = Ret (OK, decode_4x3b d F1000).
Proof. unfold getS. accepted_value Shape_4x3b. Qed.

Lemma getW_accepted W periodId month tariffNo : forall w d rs,
  line w = ReadData d :: rs ->
  checkResult_of Shape_4x4b d (Z.of_nat (List.length d)) = OK ->
  fst (getW W periodId month tariffNo w) = Ret (OK, decode_4x4b d F1000).
Proof. unfold getW. accepted_value Shape_4x4b. Qed.

Lemma no_output_answers (X : M Z) (c : Command) :
  (forall w d rs, line w = ReadData d :: rs ->
     checkResult_of (shape_of c) d (Z.of_nat (List.length d)) = OK ->
     fst (X w) = Ret OK) ->
  forall msg, answers {| step_cmd := c; step_run := no_output X; step_msg := msg |}
                      (fun _ v => v).
Proof.
  intros HX msg v w d rs Hl Ha. cbn [step_cmd step_run] in *.
  unfold accepted in Ha. apply Z.eqb_eq in Ha.
  specialize (HX w d rs Hl Ha). unfold no_output, bind, ret.
  destruct (X w) as [[r|code] w1]; cbn [fst] in *; congruence.
Qed.

Lemma output_answers {A} (get : Vars.t -> A) (set : A -> Vars.t -> Vars.t)
    (X : A -> M (Z * A)) (c : Command) (dec : list Z -> A) :
  (forall a w d rs, line w = ReadData d :: rs ->
     checkResult_of (shape_of c) d (Z.of_nat (List.length d)) = OK ->
     fst (X a w) = Ret (OK, dec d)) ->
  forall msg, answers {| step_cmd := c; step_run := output get set X; step_msg := msg |}
                      (fun d v => set (dec d) v).
Proof.
  intros HX msg v w d rs Hl Ha. cbn [step_cmd step_run] in *.
  unfold accepted in Ha. apply Z.eqb_eq in Ha.
  specialize (HX (get v) w d rs Hl Ha). unfold output, bind, ret.
  destruct (X (get v) w) as [[[r x]|code] w1]; cbn [fst] in *; congruence.
Qed.

Lemma case_OK_steps_answers : Forall2 answers case_OK_steps case_OK_updates.
Proof.
  unfold case_OK_steps, case_OK_updates.
  repeat (constructor; [|]); [ .. | constructor ].
  - apply (no_output_answers checkChannel CmdTest), checkChannel_accepted.
  - apply (no_output_answers initConnection CmdInit), initConnection_accepted.
  - apply (output_answers _ _ getU CmdGetU (fun d => decode_3x3b d F100)).
    intros a. apply getU_accepted.
  - apply (output_answers _ _ getI CmdGetI (fun d => decode_3x3b d F1000)).
    intros a. apply getI_accepted.
  - apply (output_answers _ _ getCosF CmdGetCosF (fun d => decode_4x3b d F1000)).
    intros a. apply getCosF_accepted.
  - apply (output_answers _ _ getF CmdGetF
             (fun d => B3F (Result_3b.res (Result_3b.overlay d)) F100)).
    intros a. apply getF_accepted.
  - apply (output_answers _ _ getA CmdGetA (fun d => decode_3x3b d F100)).
    intros a. apply getA_accepted.
  - apply (output_answers _ _ getP CmdGetP (fun d => decode_4x3b d F1000)).
    intros a. apply getP_accepted.
  - apply (output_answers _ _ getS CmdGetS (fun d => decode_4x3b d F1000)).
    intros a. apply getS_accepted.
  - apply (output_answers _ _ _ (CmdGetW PP_RESET 0 0) (fun d => decode_4x4b d F1000)).
    intros a. apply getW_accepted.
  - apply (output_answers _ _ _ (CmdGetW PP_YESTERDAY 0 0) (fun d => decode_4x4b d F1000)).
    intros a. apply getW_accepted.
  - apply (output_answers _ _ _ (CmdGetW PP_TODAY 0 0) (fun d => decode_4x4b d F1000)).
    intros a. apply getW_accepted.
  - apply (no_output_answers closeConnection CmdBye), closeConnection_accepted.
Qed.

(** When every answer is accepted, a run of guarded steps returns the
    variables updated by each answer in turn. *)
Lemma run_steps_values (ss : list Step) (upds : list (list Z -> Vars.t -> Vars.t)) :
  Forall (fun s => forall v, exchanges (step_cmd s) fst (step_run s v)) ss ->
  Forall2 answers ss upds ->
  forall v w,
    accepted_prefix (map step_cmd ss) (line w) = List.length ss ->
    fst (run_steps ss v w) = Ret (apply_updates upds (line w) v).
Proof.
  intros Hex Han. induction Han as [|s upd ss upds Hs Han IH]; intros v w Hn.
  - reflexivity.
  - inversion Hex as [|s' ss' Hx Hex']; subst.
    specialize (IH Hex').
    cbn [map accepted_prefix List.length] in Hn.
    destruct (line w) as [|r0 rs] eqn:Hl; [discriminate|].
    destruct (accepted (step_cmd s) r0) eqn:Ha; [|discriminate].
    destruct r0 as [| |d|]; try discriminate.
    pose proof (Hs v w d rs Hl Ha) as Hv.
    destruct (Hx v w) as (o & w1 & evs & E & _ & _ & _ & _ & _ & Hr).
    rewrite Hl, Ha in Hr. destruct Hr as [_ Hr].
    rewrite E in Hv. cbn [fst] in Hv. subst o.
    cbn [run_steps apply_updates payload]. unfold bind at 1.
    unfold guarded, bind at 1. rewrite E.
    change (negb (OK =? OK)) with false. cbn iota.
    unfold bind at 1, ret at 1. unfold ret at 1.
    rewrite IH by (rewrite Hr; lia). rewrite Hr. reflexivity.
Qed.

Lemma accepted_prefix_length (cmds : list Command) : forall script,
  (accepted_prefix cmds script <= List.length script)%nat.
Proof.
  induction cmds as [|c cmds IH]; intros [|r rs]; cbn [accepted_prefix List.length];
    try lia.
  destruct (accepted c r); [specialize (IH rs)|]; lia.
Qed.

(** X9. When the meter answers all fourteen requests acceptably, [main]
    ends with EXIT_OK after printing results that are decoded from the
    answers alone: voltages from the fourth answer, currents from the
    fifth, and so on in the order of the queries.  Nothing of what the
    result variables held before the session is printed. *)
Theorem main_success_results (v : Vars.t) (debug : bool) (script : list Response) :
  accepted_prefix issued_sequence script = List.length issued_sequence ->
  let run := main v (boot debug script) in
  fst run = Exit EXIT_OK /\
  exists t,
    trace (snd run) = t ++ [EvClose; EvTcsetattr; EvPrintResults (results_of script)].
Proof.
  intros Hn. cbv zeta.
  assert (Hseq : issued_sequence = CmdTest :: map step_cmd case_OK_steps)
    by reflexivity.
  assert (Hlen : List.length (map step_cmd case_OK_steps) = 13%nat)
    by reflexivity.
  rewrite Hseq in Hn. cbn [List.length] in Hn. rewrite Hlen in Hn.
  remember (map step_cmd case_OK_steps) as rest eqn:Hrest.
  destruct script as [|r0 rs]; [discriminate|].
  cbn [accepted_prefix] in Hn.
  destruct (accepted CmdTest r0) eqn:Ha; [|discriminate].
  injection Hn as Hn. subst rest.
  destruct r0 as [| |d0|]; try discriminate.
  pose proof (checkChannel_accepted (boot debug (ReadData d0 :: rs)) d0 rs eq_refl)
    as Hv.
  unfold accepted in Ha. apply Z.eqb_eq in Ha. specialize (Hv Ha).
  destruct (checkChannel_exchanges (boot debug (ReadData d0 :: rs)))
    as (o & w1 & evs & E & _ & _ & _ & _ & _ & Hr).
  cbn [boot line] in Hr. unfold accepted in Hr.
  apply Z.eqb_eq in Ha. rewrite Ha in Hr. destruct Hr as [_ Hr].
  rewrite E in Hv. cbn [fst] in Hv. subst o.
  pose proof (run_steps_values case_OK_steps case_OK_updates
                case_OK_steps_exchange case_OK_steps_answers v w1) as Hrun.
  rewrite Hr in Hrun. specialize (Hrun Hn).
  pose proof (accepted_prefix_length (map step_cmd case_OK_steps) rs) as Hle.
  rewrite Hn in Hle. clear Hn Hseq Hlen.
  rewrite <- main_case_OK_steps in Hrun.
  destruct (main v (boot debug (ReadData d0 :: rs))) as [o w'] eqn:Em.
  cbn [fst snd]. unfold main in Em. unfold bind at 1 in Em. rewrite E in Em.
  rewrite Z.eqb_refl in Em. unfold bind at 1 in Em.
  destruct (main_case_OK v w1) as [o2 w2]. cbn [fst] in Hrun. subst o2.
  unfold close, tcsetattr, exit, emit, bind, ret, log in Em.
  cbn [fst snd trace debugPrint line] in Em. injection Em as <- <-.
  split; [reflexivity|]. exists (trace w2). cbn [trace].
  rewrite <- !app_assoc. cbn [app]. do 4 f_equal.
  clear - Hle.
  do 13 (destruct rs as [|? rs]; [cbn [List.length] in Hle; lia|]).
  reflexivity.
Qed.

Lemma main_success_results_witness :
  let script := healthy_line in
  fst (main stale_vars (boot false script)) = Exit EXIT_OK /\
  exists t,
    trace (snd (main stale_vars (boot false script))) =
    t ++ [EvClose; EvTcsetattr; EvPrintResults (results_of script)].
Proof.
  apply (main_success_results stale_vars false healthy_line). vm_compute. reflexivity.
Defined.

(** ** The effect of [--debug] *)

Lemma ret_dump_insensitive {A} (a : A) : dump_insensitive (ret a).
Proof. intros w1 w2 H. split; [reflexivity | exact H]. Qed.

Lemma exit_dump_insensitive {A} (code : ExitCode) :
  dump_insensitive (@exit A code).
Proof. intros w1 w2 H. split; [reflexivity | exact H]. Qed.

Lemma bind_dump_insensitive {A B} (c : M A) (k : A -> M B) :
  dump_insensitive c -> (forall a, dump_insensitive (k a)) ->
  dump_insensitive (bind c k).
Proof.
  intros Hc Hk w1 w2 H. unfold bind.
  destruct (Hc w1 w2 H) as [Ho Hs].
  destruct (c w1) as [[a1|code1] w1'], (c w2) as [[a2|code2] w2'];
    cbn [fst snd] in *; try discriminate.
  - injection Ho as ->. apply Hk, Hs.
  - injection Ho as ->. split; [reflexivity | exact Hs].
Qed.

Lemma quiet_app (t1 t2 : list Event) : quiet (t1 ++ t2) = quiet t1 ++ quiet t2.
Proof. apply filter_app. Qed.

Lemma emit_dump_insensitive (e : Event) :
  is_dump e = false -> dump_insensitive (emit e).
Proof.
  intros He w1 w2 (Hd & Hl & Ht). unfold emit, log. cbn [fst snd].
  split; [reflexivity|]. unfold same_but_dumps. cbn [debugPrint line trace].
  rewrite quiet_app, Ht. repeat split; try assumption.
  destruct e; try discriminate; reflexivity.
Qed.

Lemma printPackage_dump_insensitive (data : list Z) (size : Z) (isin : Direction) :
  dump_insensitive (printPackage data size isin).
Proof.
  intros w1 w2 (Hd & Hl & Ht). unfold printPackage. rewrite Hd.
  destruct (debugPrint w1); unfold emit, ret, log; cbn [fst snd];
    (split; [reflexivity|]); unfold same_but_dumps; cbn [debugPrint line trace];
    rewrite ?quiet_app, ?Ht; cbn [quiet filter]; rewrite ?app_nil_r; auto.
Qed.

Lemma select_dump_insensitive (sec : Z) : dump_insensitive (select sec).
Proof.
  intros w1 w2 (Hd & Hl & Ht). unfold select. rewrite Hl.
  destruct (line w2) as [|[| |d|] rs] eqn:E; unfold advance, log; cbn [fst snd];
    (split; [reflexivity|]); unfold same_but_dumps; cbn [debugPrint line trace];
    rewrite quiet_app, Ht, ?Hl, ?E; cbn [tl]; auto.
Qed.

Lemma read_dump_insensitive : dump_insensitive read.
Proof.
  intros w1 w2 (Hd & Hl & Ht). unfold read. rewrite Hl.
  destruct (line w2) as [|[| |d|] rs] eqn:E; unfold advance, log; cbn [fst snd];
    (split; [reflexivity|]); unfold same_but_dumps; cbn [debugPrint line trace];
    rewrite quiet_app, Ht, ?Hl, ?E; cbn [tl]; auto.
Qed.

Ltac insensitive :=
  repeat first
    [ apply ret_dump_insensitive
    | apply exit_dump_insensitive
    | apply printPackage_dump_insensitive
    | apply select_dump_insensitive
    | apply read_dump_insensitive
    | apply emit_dump_insensitive; reflexivity
    | assumption
    | apply bind_dump_insensitive; [|intros ?]
    | match goal with
      | |- dump_insensitive (let (_, _) := ?a in _) => destruct a
      | |- dump_insensitive (if ?b then _ else _) => destruct b
      | |- dump_insensitive (match ?a with _ => _ end) => destruct a
      end
    | progress cbv zeta ].

Lemma exitFailure_dump_insensitive {A} (msg : string) :
  dump_insensitive (@exitFailure A msg).
Proof. unfold exitFailure, printf. insensitive. Qed.

Lemma nb_read_dump_insensitive : dump_insensitive nb_read.
Proof.
  pose proof (@exitFailure_dump_insensitive) as HF.
  unfold nb_read, nb_read_impl. insensitive; apply HF.
Qed.

Lemma checkChannel_dump_insensitive : dump_insensitive checkChannel.
Proof.
  pose proof nb_read_dump_insensitive as HN.
  unfold checkChannel, write, usleep. insensitive.
Qed.

Lemma initConnection_dump_insensitive : dump_insensitive initConnection.
Proof.
  pose proof nb_read_dump_insensitive as HN.
  unfold initConnection, write, usleep. insensitive.
Qed.

Lemma closeConnection_dump_insensitive : dump_insensitive closeConnection.
Proof.
  pose proof nb_read_dump_insensitive as HN.
  unfold closeConnection, write, usleep. insensitive.
Qed.

Ltac query_insensitive f :=
  let HN := fresh "HN" in
  pose proof nb_read_dump_insensitive as HN;
  unfold f, write, usleep;
  hide_frame;
  insensitive.

Lemma getU_dump_insensitive U : dump_insensitive (getU U).
Proof. query_insensitive getU. Qed.

Lemma getI_dump_insensitive I : dump_insensitive (getI I).
Proof. query_insensitive getI. Qed.

Lemma getCosF_dump_insensitive C : dump_insensitive (getCosF C).
Proof. query_insensitive getCosF. Qed.

Lemma getF_dump_insensitive f : dump_insensitive (getF f).
Proof. query_insensitive getF. Qed.

Lemma getA_dump_insensitive A : dump_insensitive (getA A).
Proof. query_insensitive getA. Qed.

Lemma getP_dump_insensitive P : dump_insensitive (getP P).
Proof. query_insensitive getP. Qed.

Lemma getS_dump_insensitive S : dump_insensitive (getS S).
Proof. query_insensitive getS. Qed.

Lemma getW_dump_insensitive W periodId month tariffNo :
  dump_insensitive (getW W periodId month tariffNo).
Proof. query_insensitive getW. Qed.

Lemma main_dump_insensitive (v : Vars.t) : dump_insensitive (main v).
Proof.
  unfold main.
  apply bind_dump_insensitive; [apply checkChannel_dump_insensitive|intros r].
  apply bind_dump_insensitive.
  - destruct (r =? OK).
    + unfold main_case_OK.
      pose proof checkChannel_dump_insensitive.
      pose proof initConnection_dump_insensitive.
      pose proof closeConnection_dump_insensitive.
      pose proof (@exitFailure_dump_insensitive).
      repeat first
        [ apply ret_dump_insensitive
        | apply getU_dump_insensitive | apply getI_dump_insensitive
        | apply getCosF_dump_insensitive | apply getF_dump_insensitive
        | apply getA_dump_insensitive | apply getP_dump_insensitive
        | apply getS_dump_insensitive | apply getW_dump_insensitive
        | solve [auto]
        | apply bind_dump_insensitive; [|intros ?]
        | match goal with
          | |- dump_insensitive (let (_, _) := ?a in _) => destruct a
          | |- dump_insensitive (if ?b then _ else _) => destruct b
          end
        | progress cbv zeta ].
    + destruct (r =? CHECK_CHANNEL_TIME_OUT);
        [apply ret_dump_insensitive | apply exitFailure_dump_insensitive].
  - intros v'. unfold close, tcsetattr. insensitive.
Qed.

(** X10. The [--debug] flag changes nothing but the hex dumps: with and
    without it, [main] ends with the same outcome after consuming the same
    answers, and the calls it makes are the same once the dumps of
    [printPackage] are left out.  Without the flag nothing is dumped. *)
Theorem debug_only_adds_dumps (v : Vars.t) (script : list Response) :
  let plain := main v (boot false script) in
  let debug := main v (boot true script) in
  fst debug = fst plain /\
  quiet (trace (snd debug)) = trace (snd plain) /\
  line (snd debug) = line (snd plain).
Proof.
  cbv zeta.
  destruct (main_dump_insensitive v (boot true script) (boot false script))
    as (Ho & _ & Hl & Ht).
  - repeat split.
  - auto.
Qed.

(** ** Command line *)

Lemma parse_options_run (args : list string) : forall w,
  let run := parse_options args w in
  if forallb (String.eqb OPT_DEBUG) args
  then run = (Ret tt, {| debugPrint := debugPrint w || negb (Nat.eqb (List.length args) 0);
                         line := line w; trace := trace w |})
  else fst run = Exit EXIT_OK /\ trace (snd run) = trace w ++ usage_screen /\
       line (snd run) = line w.
Proof.
  induction args as [|arg args IH]; intros w; cbv zeta.
  - cbn. rewrite orb_false_r. destruct w; reflexivity.
  - cbn [forallb parse_options List.length Nat.eqb negb]. unfold bind at 1.
    destruct (String.eqb OPT_DEBUG arg); cbn [andb].
    + unfold set_debugPrint.
      specialize (IH {| debugPrint := true; line := line w; trace := trace w |}).
      cbv zeta in IH. cbn [debugPrint line trace orb] in IH.
      destruct (forallb (String.eqb OPT_DEBUG) args).
      * rewrite IH, orb_true_r. reflexivity.
      * exact IH.
    + unfold printUsage, printf, exit, emit, bind, log. cbn [fst snd trace line].
      rewrite <- !app_assoc. repeat split.
Qed.

(** X11. The option loop of [main]: when every argument is [--debug]
    the loop falls through, with [debugPrint] set exactly when there is at
    least one argument; otherwise, at the first other argument ([--help]
    or anything else), the usage screen is printed once and the process
    ends with EXIT_OK, nothing having been sent to the meter. *)
Theorem options_outcome (args : list string) (script : list Response) :
  let run := parse_options args (boot false script) in
  if forallb (String.eqb OPT_DEBUG) args
  then run = (Ret tt, boot (negb (Nat.eqb (List.length args) 0)) script)
  else fst run = Exit EXIT_OK /\ trace (snd run) = usage_screen /\
       line (snd run) = script.
Proof.
  exact (parse_options_run args (boot false script)).
Qed.

(** ** The request of [getW] *)

(** X12. The request [getW] sends is the framed body
    [address, 0x05, paramId, tariffNo mod 256], where the high nibble of
    [paramId] holds the low four bits of [periodId] and the low nibble
    the low four bits of [month]: a period identifier of 16 or more and a
    month of 16 or more are cut down without notice. *)
Theorem getW_request (periodId month tariffNo : Z) :
  0 <= periodId < 2 ^ 27 ->
  request (CmdGetW periodId month tariffNo) =
  framed [PM_ADDRESS; 0x05; 16 * (periodId mod 16) + month mod 16; tariffNo mod 256].
Proof.
  intros Hp. unfold request, getWCmd.
  assert (Hm : 0 <= month mod 16 < 16) by (apply Z.mod_pos_bound; lia).
  assert (Hq : 0 <= periodId mod 16 < 16) by (apply Z.mod_pos_bound; lia).
  assert (E : uint8 (int32 (Z.lor (int32 (Z.shiftl periodId 4)) (Z.land month 0xF)))
              = 16 * (periodId mod 16) + month mod 16).
  { change 0xF with (Z.ones 4). rewrite Z.land_ones by lia.
    rewrite Z.shiftl_mul_pow2 by lia. change (2 ^ 4) with 16.
    rewrite (int32_small (periodId * 16)) by lia.
    replace (periodId * 16) with (Z.shiftl periodId 4)
      by (rewrite Z.shiftl_mul_pow2 by lia; reflexivity).
    rewrite lor_shiftl_low by (change (2 ^ 4) with 16; lia).
    change (2 ^ 4) with 16. rewrite int32_small by lia.
    unfold uint8. change (2 ^ 8) with 256.
    pose proof (Z.div_mod periodId 16 ltac:(lia)) as D.
    replace (periodId * 16 + month mod 16)
      with (16 * (periodId mod 16) + month mod 16 + (periodId / 16) * 256) by lia.
    rewrite Z.mod_add by lia. apply Z.mod_small. lia. }
  rewrite E.
  set (p := 16 * (periodId mod 16) + month mod 16).
  unfold ReadParamCmd.set_CRC, ReadParamCmd.bytes, framed.
  cbn [ReadParamCmd.address ReadParamCmd.command ReadParamCmd.paramId
       ReadParamCmd.BWRI ReadParamCmd.CRC].
  unfold uint8. change (2 ^ 8) with 256.
  set (body := [PM_ADDRESS; 5; p; tariffNo mod 256]).
  assert (C : ModRTU_CRC (body ++ store_UInt16 0)
                (ReadParamCmd.sizeof - sizeof_UInt16)
              = ModRTU_CRC body (Z.of_nat (List.length body))).
  { change (ReadParamCmd.sizeof - sizeof_UInt16)
      with (Z.of_nat (List.length body)).
    rewrite ModRTU_CRC_prefix.
    unfold ModRTU_CRC. rewrite Nat2Z.id, firstn_all. reflexivity. }
  rewrite C. reflexivity.
Qed.

Lemma getW_request_witness :
  request (CmdGetW PP_MONTH 12 1) = framed [PM_ADDRESS; 0x05; 16 * (PP_MONTH mod 16) + 12 mod 16; 1 mod 256].
Proof. apply (getW_request PP_MONTH 12 1). unfold PP_MONTH. lia. Defined.
